(** * run-in-renode.py: the orchestrator of the Renode Linux runner action

    A shallow embedding of [src/action/run-in-renode.py].  The script is a
    sequence of calls into collaborators that live in other modules
    ([common], [command], [devices], [dependencies], [images],
    [dispatcher]) and in Python's library.  Every such call is recorded as
    an [Event] in a trace; what a collaborator returns, and whether it
    raises, is given by an environment [Env].  The module-level list
    [commands] is the only mutable object the script owns and is carried in
    the state next to the trace. *)

From Stdlib Require Import Ascii String DecimalString DecimalNat.
From stdpp Require Import base decidable option list strings gmap.

Open Scope string_scope.
Open Scope list_scope.
Open Scope nat_scope.

(** ** Python strings

    A [string] is read as a sequence of code points below 256. *)

Module PyStr.

(** Code points on which [str.isspace] holds (the set [str.strip] removes). *)
Definition isspace (c : ascii) : bool :=
  let n := nat_of_ascii c in
  (((9 <=? n) && (n <=? 13)) || ((28 <=? n) && (n <=? 32))
   || (n =? 133) || (n =? 160))%nat.

(** [s.strip() == ""]: stripping leaves nothing exactly when every code
    point is white space. *)
Fixpoint strip_is_empty (s : string) : bool :=
  match s with
  | EmptyString => true
  | String c s' => isspace c && strip_is_empty s'
  end.

(** Line boundaries of [str.splitlines] other than the pair CR LF. *)
Definition is_linebreak (c : ascii) : bool :=
  let n := nat_of_ascii c in
  (((10 <=? n) && (n <=? 13)) || ((28 <=? n) && (n <=? 30)) || (n =? 133))%nat.

Definition is_cr (c : ascii) : bool := (nat_of_ascii c =? 13)%nat.
Definition is_lf (c : ascii) : bool := (nat_of_ascii c =? 10)%nat.

(** [splitlines_from cur after_cr s]: [cur] is the line read so far, most
    recent code point first; [after_cr] says that the previous code point
    was a CR that closed a line, so that an LF now belongs to it. *)
Fixpoint splitlines_from (cur : list ascii) (after_cr : bool) (s : string)
  : list string :=
  match s with
  | EmptyString =>
      match cur with
      | [] => []
      | _ => [string_of_list_ascii (rev cur)]
      end
  | String c s' =>
      if after_cr && is_lf c then splitlines_from [] false s'
      else if is_linebreak c then
        string_of_list_ascii (rev cur) :: splitlines_from [] (is_cr c) s'
      else splitlines_from (c :: cur) false s'
  end.

(** [s.splitlines()] *)
Definition splitlines (s : string) : list string :=
  splitlines_from [] false s.

(** [s.startswith(c)] for a one-character prefix. *)
Definition startswith_char (c : ascii) (s : string) : bool :=
  match s with
  | String d _ => bool_decide (c = d)
  | EmptyString => false
  end.

(** [str(n)] for a non-negative integer, as in an f-string. *)
Definition of_nat (n : nat) : string :=
  NilEmpty.string_of_uint (Nat.to_uint n).

(** Decimal rendering padded with zeros on the left up to [width]. *)
Definition zero_pad (width n : nat) : string :=
  let d := of_nat n in
  string_of_list_ascii (replicate (width - String.length d) "0"%char) +:+ d.

End PyStr.

(** ** Python dictionaries

    A [dict] keeps its keys in insertion order and holds each key once; it
    is an association list whose keys are pairwise distinct ([Dict.wf]). *)

Module Dict.

Definition t (V : Type) : Type := list (string * V).

Definition keys {V} (d : t V) : list string := d.*1.

Definition wf {V} (d : t V) : Prop := NoDup (keys d).

(** [d.get(k)] *)
Fixpoint get {V} (k : string) (d : t V) : option V :=
  match d with
  | [] => None
  | (k', v) :: d' => if decide (k = k') then Some v else get k d'
  end.

(** [d.get(k, default)] *)
Definition get_default {V} (k : string) (dflt : V) (d : t V) : V :=
  default dflt (get k d).

(** [d[k] = v]: the value is replaced where the key stands, a new key goes
    to the end. *)
Fixpoint set {V} (k : string) (v : V) (d : t V) : t V :=
  match d with
  | [] => [(k, v)]
  | (k', v') :: d' =>
      if decide (k = k') then (k, v) :: d' else (k', v') :: set k v d'
  end.

(** [d.update(other)] *)
Definition update {V} (d other : t V) : t V :=
  fold_left (fun acc kv => set kv.1 kv.2 acc) other d.

(** [d1 | d2]: a copy of [d1] updated with [d2]. *)
Definition union {V} (d1 d2 : t V) : t V := update d1 d2.

End Dict.

Infix "|." := Dict.union (at level 50, left associativity).

(** ** Data of the collaborating modules *)

(** A value held in a task-parameter mapping such as the overrides of
    [test_task]: a string, a list of strings or a boolean. *)
Inductive PyVal : Type :=
| PStr (s : string)
| PList (l : list string)
| PBool (b : bool).

(** An entry of [common.archs]; the script reads the two attributes
    [default_board] and [network_available]. *)
Record Arch : Type := {
  default_board : string;
  network_available : bool;
}.

(** An entry of [images.shared_directories_actions]; the script reads the
    attributes [host] and [target]. *)
Record SharedDir : Type := {
  host : string;
  target : string;
}.

(** Modelled from the spec: the [Task] of module [command], which is not
    part of the sources at hand.  The fields are those of the spec's data
    model: name, shell, requires, echo, body and the enabled flag. *)
Record Task : Type := {
  task_name : string;
  task_shell : string;
  task_requires : list string;
  task_echo : bool;
  task_body : list string;
  task_enabled : bool;
}.

(** What [datetime.now()] returns. *)
Record DateTime : Type := {
  year : nat; month : nat; day : nat;
  hour : nat; minute : nat; second : nat;
}.

(** [dt.strftime("%Y-%m-%d %H:%M:%S")].  Python hands the format to the C
    library, whose [%Y] writes the year in decimal without padding (year 999
    gives "999-..."), while [%m], [%d], [%H], [%M] and [%S] are padded with
    zeros to two digits. *)
Definition strftime (dt : DateTime) : string :=
  PyStr.of_nat (year dt) +:+ "-" +:+ PyStr.zero_pad 2 (month dt) +:+ "-"
  +:+ PyStr.zero_pad 2 (day dt) +:+ " " +:+ PyStr.zero_pad 2 (hour dt) +:+ ":"
  +:+ PyStr.zero_pad 2 (minute dt) +:+ ":" +:+ PyStr.zero_pad 2 (second dt).


(** [str(s)] of a string is the string. *)
Definition str (s : string) : string := s.

(** ** Exceptions, results, events *)

Inductive Exn : Type :=
| SystemExit (code : nat)
| KeyError (key : string)
| IndexError
| YAMLError
| OtherError (what : string).

Inductive Result (A : Type) : Type :=
| Ok (a : A)
| Raise (e : Exn).
Arguments Ok {A} a.
Arguments Raise {A} e.

(** A call that leaves the script, with its arguments. *)
Inductive Event : Type :=
| GetFile (source dest path_context : string)
| Error (msg : string)
| PrepareKernelAndInitramfs (user_directory kernel : string)
| PrepareSharedDirectories (spec : string)
| AddDevices (spec : string)
| AddPackages (arch spec : string)
| AddRepos (spec : string)
| BurnRootfsImage (user_directory image arch rootfs_size image_type : string)
| DispatcherInit (board : string) (vars : Dict.t string)
    (optional_tasks : Dict.t (Dict.t string))
| EnableTask (name : string) (enabled : bool)
| AddTask (task : Task)
| Evaluate
| LoadFromYaml (text : string) (overrides : Dict.t PyVal)
| FromMultilineString (name text : string) (params : Dict.t PyVal)
| Run (command : list string)
| CopyTree (src dst : string).

(** The state the script owns: the trace of calls made so far and the
    module-level list [commands]. *)
Record State : Type := {
  trace : list Event;
  commands : list (list string);
}.

(** [commands = [["mkdir", "rootfs"]]] (lines 41-43) at an empty trace. *)
Definition initial_state : State :=
  {| trace := []; commands := [["mkdir"; "rootfs"]] |}.

(** The collaborators.  What a call returns is a function of its
    arguments; whether a call raises, what the clock shows and what the
    file system and the list [images.shared_directories_actions] hold may
    depend on every call made before. *)
Record Env : Type := {
  archs : gmap string Arch;
  json_loads : string → option (option (Dict.t string));
  add_devices : string → Dict.t (Dict.t string);
  add_packages : string → string → Dict.t (Dict.t string);
  load_from_yaml : string → Dict.t PyVal → Result Task;
  from_multiline_string : string → string → Dict.t PyVal → Result Task;
  datetime_now : list Event → DateTime;
  shared_directories_actions : list Event → list SharedDir;
  path_exists : list Event → string → bool;
  raises : list Event → Event → option Exn;
}.

(** ** The monad of the script: state and exceptions *)

Definition M (A : Type) : Type := State → State * Result A.

Definition ret {A} (a : A) : M A := fun s => (s, Ok a).

Definition raise {A} (e : Exn) : M A := fun s => (s, Raise e).

Definition bind {A B} (m : M A) (k : A → M B) : M B :=
  fun s =>
    match m s with
    | (s', Ok a) => k a s'
    | (s', Raise e) => (s', Raise e)
    end.

Declare Scope py_scope.
Delimit Scope py_scope with py.
Notation "'let*' x ':=' m 'in' k" := (bind m (fun x => k))
  (at level 10, x pattern, m at level 100, k at level 200) : py_scope.
Notation "m >> k" := (bind m (fun _ => k))
  (at level 65, right associativity) : py_scope.
Open Scope py_scope.

(** A value or an exception computed outside the state. *)
Definition lift {A} (r : Result A) : M A := fun s => (s, r).

Definition record (e : Event) (s : State) : State :=
  {| trace := trace s ++ [e]; commands := commands s |}.

(** Note a call that cannot raise by itself. *)
Definition log (e : Event) : M unit := fun s => (record e s, Ok tt).

(** [when c m]: an [if] without [else]. *)
Definition when (c : bool) (m : M unit) : M unit :=
  if c then m else ret tt.

(** [for x in l: body(x)] *)
Fixpoint for_each {A} (l : list A) (body : A → M unit) : M unit :=
  match l with
  | [] => ret tt
  | x :: l' => body x >> for_each l' body
  end.

(** [enumerate(l)] *)
Definition enumerate {A} (l : list A) : list (nat * A) :=
  zip (seq 0 (length l)) l.

(** [try: m  except yaml.YAMLError: handler] *)
Definition try_except_YAMLError {A} (m handler : M A) : M A :=
  fun s =>
    match m s with
    | (s', Raise YAMLError) => handler s'
    | r => r
    end.

(** [commands.append(c)] *)
Definition commands_append (c : list string) : M unit :=
  fun s => ({| trace := trace s; commands := commands s ++ [c] |}, Ok tt).

(** Reading the module-level list [commands]. *)
Definition get_commands : M (list (list string)) :=
  fun s => (s, Ok (commands s)).

(** Reading the trace, for the collaborators that depend on it. *)
Definition get_trace : M (list Event) :=
  fun s => (s, Ok (trace s)).

(** ** The script *)

(** [DEFAULT_IMAGE_PATH.format(repo, ref, arch)] (line 37) *)
Definition DEFAULT_IMAGE_PATH (repo ref arch : string) : string :=
  "https://github.com/" +:+ repo +:+ "/releases/download/" +:+ ref
  +:+ "/image-" +:+ arch +:+ "-default.tar.xz".

(** [DEFAULT_KERNEL_PATH.format(repo, ref, arch, board)] (line 38) *)
Definition DEFAULT_KERNEL_PATH (repo ref arch board : string) : string :=
  "https://github.com/" +:+ repo +:+ "/releases/download/" +:+ ref
  +:+ "/kernel-" +:+ arch +:+ "-" +:+ board +:+ ".tar.xz".

(** The overrides of [test_task] (lines 91-96). *)
Definition test_task_params : Dict.t PyVal :=
  [("name", PStr "action_test");
   ("shell", PStr "target");
   ("requires", PList ["chroot"; "python"]);
   ("echo", PBool true)].

(** The mount command of [prepare_image] (line 124). *)
Definition mount_command : list string :=
  ["sudo"; "mount"; "images/rootfs.img"; "rootfs"].

Section Script.

Context (E : Env).

(** A call into a collaborator: it is recorded, and it raises when the
    environment says so. *)
Definition call (e : Event) : M unit :=
  fun s =>
    (record e s,
     match raises E (trace s) e with
     | None => Ok tt
     | Some x => Raise x
     end).

(** Modelled from the spec: [common.error], which is not part of the
    sources at hand.  It reports the message and terminates the run with a
    non-zero exit status. *)
Definition error (msg : string) : M unit :=
  log (Error msg) >> raise (SystemExit 1).

(** [archs[arch]] *)
Definition archs_getitem (arch : string) : M Arch :=
  match archs E !! arch with
  | Some a => ret a
  | None => raise (KeyError arch)
  end.

(** [sys.argv[i]] *)
Definition argv_getitem (argv : list string) (i : nat) : M string :=
  match argv !! i with
  | Some a => ret a
  | None => raise IndexError
  end.

(** Lines 46-86. *)
Definition configure_board
    (user_directory custom_config arch board resc repl : string)
  : M (string * string) :=
  if decide (custom_config ≠ "none") then
    call (GetFile custom_config "action/device/custom" user_directory) >>
    ret (arch, "custom")
  else
    when (bool_decide (archs E !! arch = None))
      (error "Architecture not supportted!") >>
    let* board :=
      (if decide (board = "default")
       then let* a := archs_getitem arch in ret (default_board a)
       else ret board) in
    when (bool_decide (board = "custom")
          && (bool_decide (resc = "default") || bool_decide (repl = "default")))
      (error "You have to provide resc and repl for custom board") >>
    when (bool_decide (resc ≠ "default"))
      (call (GetFile resc ("action/device/" +:+ board +:+ "/init.resc")
               user_directory)) >>
    when (bool_decide (repl ≠ "default"))
      (call (GetFile resc ("action/device/" +:+ board +:+ "/platform.repl")
               user_directory)) >>
    ret (arch, board).

(** Lines 89-101. *)
Definition test_task (test_task_str : string) : M Task :=
  let params := test_task_params in
  try_except_YAMLError
    (log (LoadFromYaml test_task_str params) >>
     lift (load_from_yaml E test_task_str params))
    (log (FromMultilineString "action_test" test_task_str params) >>
     lift (from_multiline_string E "action_test" test_task_str params)).

(** Lines 104-124.  The globals [action_repo] and [action_ref], which the
    script assigns on lines 141-142 before its only call of this function,
    are passed as the first two arguments. *)
Definition prepare_image
    (action_repo action_ref : string)
    (user_directory image arch rootfs_size image_type : string)
  : M unit :=
  if decide (image = "none") then ret tt
  else
    let image :=
      if PyStr.strip_is_empty image
      then DEFAULT_IMAGE_PATH action_repo action_ref arch
      else image in
    call (BurnRootfsImage user_directory image arch rootfs_size image_type) >>
    commands_append mount_command.

(** Lines 128-142: the command line.  The result is [args],
    [user_directory], [action_repo] and [action_ref]. *)
Definition parse_arguments (argv : list string)
  : M (Dict.t string * string * string * string) :=
  when (bool_decide (length argv ≠ 5)) (error "Wrong number of arguments") >>
  let* argv1 := argv_getitem argv 1 in
  let* args :=
    (match json_loads E argv1 with
     | Some a => ret a
     | None =>
         let* again := argv_getitem argv 1 in
         error ("JSON decoder error for string: " +:+ again) >> ret None
     end) in
  match args with
  | None => raise (SystemExit 1)
  | Some args =>
      let* user_directory := argv_getitem argv 2 in
      let* action_repo := argv_getitem argv 3 in
      let* action_ref := argv_getitem argv 4 in
      ret (args, user_directory, action_repo, action_ref)
  end.

(** Lines 144-177: board, kernel, shared directories, optional tasks,
    repositories, image and user task files.  The result is [arch],
    [board] and [optional_tasks]. *)
Definition stage (args : Dict.t string)
    (user_directory action_repo action_ref : string)
  : M (string * string * Dict.t (Dict.t string)) :=
  let* (arch, board) :=
    configure_board user_directory
      (Dict.get_default "custom-config" "none" args)
      (Dict.get_default "arch" "riscv64" args)
      (Dict.get_default "board" "default" args)
      (Dict.get_default "resc" "default" args)
      (Dict.get_default "repl" "default" args) in
  let kernel := Dict.get_default "kernel" "" args in
  let* kernel :=
    (if PyStr.strip_is_empty kernel && bool_decide (board = "custom") then
       error "You have to provide custom kernel for custom board." >>
       ret kernel
     else if PyStr.strip_is_empty kernel then
       ret (DEFAULT_KERNEL_PATH action_repo action_ref arch board)
     else ret kernel) in
  call (PrepareKernelAndInitramfs user_directory kernel) >>
  call (PrepareSharedDirectories (Dict.get_default "shared-dirs" "" args)) >>
  let devices_spec := Dict.get_default "devices" "" args in
  call (AddDevices devices_spec) >>
  let devices := add_devices E devices_spec in
  let packages_spec := Dict.get_default "python-packages" "" args in
  call (AddPackages arch packages_spec) >>
  let python_packages := add_packages E arch packages_spec in
  let optional_tasks := devices |. python_packages in
  call (AddRepos (Dict.get_default "repos" "" args)) >>
  prepare_image action_repo action_ref user_directory
    (Dict.get_default "image" "" args) arch
    (Dict.get_default "rootfs-size" "auto" args)
    (Dict.get_default "image-type" "native" args) >>
  for_each (enumerate (PyStr.splitlines (Dict.get_default "tasks" "" args)))
    (fun '(it, custom_task) =>
       call (GetFile custom_task
               ("action/user_tasks/task" +:+ PyStr.of_nat it +:+ ".yml")
               user_directory)) >>
  ret (arch, board, optional_tasks).

(** Lines 187-189: the network tasks are switched off when the user opts
    out or the architecture has no network.  [or] evaluates its right
    operand only when the left one is false. *)
Definition disable_network (args : Dict.t string) (arch : string) : M unit :=
  let* off :=
    (if decide (Dict.get_default "network" "true" args ≠ "true") then ret true
     else let* a := archs_getitem arch in ret (negb (network_available a))) in
  when off
    (for_each ["host"; "renode"; "target"]
       (fun i => call (EnableTask (i +:+ "_network") false))).

(** Lines 179-193: the dispatcher is built, the optional tasks are switched
    on, the network tasks are switched off, the test task is added and the
    catalog is evaluated. *)
Definition dispatch (args : Dict.t string) (arch board : string)
    (optional_tasks : Dict.t (Dict.t string)) : M unit :=
  let* made := get_trace in
  call (DispatcherInit board
          [("NOW", str (strftime (datetime_now E made))); ("BOARD", board)]
          optional_tasks) >>
  for_each (Dict.keys optional_tasks)
    (fun task => call (EnableTask task true)) >>
  disable_network args arch >>
  let* task := test_task (Dict.get_default "renode-run" "" args) in
  call (AddTask task) >>
  call Evaluate.

(** Lines 195-202: the queued host commands run and the shared directories
    are copied back. *)
Definition collect (user_directory : string) : M unit :=
  let* cmds := get_commands in
  for_each cmds (fun command => call (Run command)) >>
  let* tr := get_trace in
  for_each (shared_directories_actions E tr)
    (fun dir =>
       let src := "rootfs/" +:+ target dir in
       let dst :=
         if negb (PyStr.startswith_char "/" (host dir))
         then user_directory +:+ "/" +:+ host dir
         else host dir in
       let* now := get_trace in
       when (path_exists E now src) (call (CopyTree src dst))).

(** Lines 127-202, the body of [if __name__ == "__main__"]. *)
Definition main (argv : list string) : M unit :=
  let* (args, user_directory, action_repo, action_ref) :=
    parse_arguments argv in
  let* (arch, board, optional_tasks) :=
    stage args user_directory action_repo action_ref in
  dispatch args arch board optional_tasks >>
  collect user_directory.

(** A whole run of the script from its initial state. *)
Definition run_main (argv : list string) : State * Result unit :=
  main argv initial_state.

End Script.

(** ** The task constructors of module [command] *)

Definition get_str (k dflt : string) (d : Dict.t PyVal) : string :=
  match Dict.get k d with Some (PStr s) => s | _ => dflt end.

Definition get_list (k : string) (dflt : list string) (d : Dict.t PyVal)
  : list string :=
  match Dict.get k d with Some (PList l) => l | _ => dflt end.

Definition get_bool (k : string) (dflt : bool) (d : Dict.t PyVal) : bool :=
  match Dict.get k d with Some (PBool b) => b | _ => dflt end.

(** The task declared by a mapping of fields; a field the mapping does not
    declare takes the engine's default. *)
Definition task_of_fields (defaults : Task) (d : Dict.t PyVal) : Task :=
  {| task_name := get_str "name" (task_name defaults) d;
     task_shell := get_str "shell" (task_shell defaults) d;
     task_requires := get_list "requires" (task_requires defaults) d;
     task_echo := get_bool "echo" (task_echo defaults) d;
     task_body := get_list "body" (task_body defaults) d;
     task_enabled := get_bool "enabled" (task_enabled defaults) d |}.

(** Modelled from the spec: [Task.load_from_yaml], which is not part of
    the sources at hand.  The text is parsed as a YAML document describing
    one task; fields present in the overrides replace the same-named fields
    parsed from the document; a text that is not valid YAML for the schema
    fails with the parse error.  [yaml_load] stands for the YAML parser: it
    gives the declared fields of a valid document and nothing otherwise. *)
Definition Task_load_from_yaml
    (yaml_load : string → option (Dict.t PyVal)) (defaults : Task)
    (text : string) (overrides : Dict.t PyVal) : Result Task :=
  match yaml_load text with
  | Some doc => Ok (task_of_fields defaults (doc |. overrides))
  | None => Raise YAMLError
  end.

(** Modelled from the spec: [Task.from_multiline_string], which is not
    part of the sources at hand.  The body is the line-split content of the
    text, the declared fields are those of [params] and the name is the one
    supplied; it does not fail. *)
Definition Task_from_multiline_string (defaults : Task)
    (name text : string) (params : Dict.t PyVal) : Result Task :=
  Ok (task_of_fields defaults
        (Dict.set "body" (PList (PyStr.splitlines text))
           (Dict.set "name" (PStr name) params))).

(** An environment whose task constructors are the two above. *)
Definition with_Task_constructors
    (yaml_load : string → option (Dict.t PyVal)) (defaults : Task) (E : Env)
  : Env :=
  {| archs := archs E;
     json_loads := json_loads E;
     add_devices := add_devices E;
     add_packages := add_packages E;
     load_from_yaml := Task_load_from_yaml yaml_load defaults;
     from_multiline_string := Task_from_multiline_string defaults;
     datetime_now := datetime_now E;
     shared_directories_actions := shared_directories_actions E;
     path_exists := path_exists E;
     raises := raises E |}.

(** ** Observing a computation *)

(** The calls [m] makes when started in [s]. *)
Definition events_of {A} (m : M A) (s : State) : list Event :=
  drop (length (trace s)) (trace (m s).1).

(** How [m] ends when started in [s]. *)
Definition outcome_of {A} (m : M A) (s : State) : Result A := (m s).2.

(** [m] only adds calls that satisfy [P] to the trace. *)
Definition emits (P : Event → Prop) {A} (m : M A) : Prop :=
  ∀ s, ∃ evs, trace (m s).1 = trace s ++ evs ∧ Forall P evs.

(** [m] changes the list [commands] only as [R] allows. *)
Definition commands_rel (R : relation (list (list string))) {A} (m : M A)
  : Prop :=
  ∀ s, R (commands s) (commands (m s).1).

(** Started in [s], [m] leaves [commands] alone; it makes the calls
    [ideal] and returns a value in [Q], or it raises after a prefix of
    them. *)
Definition follows_from (s : State) {A} (m : M A) (ideal : list Event)
    (Q : A → Prop) : Prop :=
  commands (m s).1 = commands s ∧
  match (m s).2 with
  | Ok a => trace (m s).1 = trace s ++ ideal ∧ Q a
  | Raise _ => ∃ evs, trace (m s).1 = trace s ++ evs ∧ evs `prefix_of` ideal
  end.

Definition follows {A} (m : M A) (ideal : list Event) (Q : A → Prop) : Prop :=
  ∀ s, follows_from s m ideal Q.

(** [m] returns, whatever the state, with a value in [Q]. *)
Definition returns {A} (m : M A) (Q : A → Prop) : Prop :=
  ∀ s, ∃ s' a, m s = (s', Ok a) ∧ Q a.

(** The calls that go to the dispatcher. *)
Definition is_dispatcher_call (e : Event) : bool :=
  match e with
  | DispatcherInit _ _ _ | EnableTask _ _ | AddTask _ | Evaluate => true
  | _ => false
  end.

(** The calls that construct a task. *)
Definition is_task_constructor (e : Event) : bool :=
  match e with
  | LoadFromYaml _ _ | FromMultilineString _ _ _ => true
  | _ => false
  end.

(** A call that neither goes to the dispatcher nor constructs a task: the
    calls that stage the run and those that collect its results. *)
Definition quiet (e : Event) : Prop :=
  is_dispatcher_call e || is_task_constructor e = false.

(** The run got as far as line 191, where the test task is built. *)
Definition builds_test_task (tr : list Event) : Prop :=
  ∃ text overrides, LoadFromYaml text overrides ∈ tr.

(** The user opted out of the network or the architecture has none. *)
Definition network_denied (E : Env) (args : Dict.t string) (arch : string)
  : Prop :=
  Dict.get_default "network" "true" args ≠ "true"
  ∨ ∃ a, archs E !! arch = Some a ∧ network_available a = false.

Definition network_tasks : list string :=
  ["host_network"; "renode_network"; "target_network"].

(** The calls of [disable_network] when nothing raises. *)
Definition network_events (E : Env) (args : Dict.t string) (arch : string)
  : list Event :=
  if decide (Dict.get_default "network" "true" args ≠ "true") then
    (fun n => EnableTask n false) <$> network_tasks
  else
    match archs E !! arch with
    | Some a =>
        if network_available a then []
        else (fun n => EnableTask n false) <$> network_tasks
    | None => []
    end.

(** The calls and the outcome of [test_task]. *)
Definition test_task_events (E : Env) (text : string) : list Event :=
  LoadFromYaml text test_task_params ::
  match load_from_yaml E text test_task_params with
  | Raise YAMLError => [FromMultilineString "action_test" text test_task_params]
  | _ => []
  end.

Definition test_task_outcome (E : Env) (text : string) : Result Task :=
  match load_from_yaml E text test_task_params with
  | Raise YAMLError =>
      from_multiline_string E "action_test" text test_task_params
  | r => r
  end.

(** The template variables handed to the dispatcher. *)
Definition template_variables (now : DateTime) (board : string)
  : Dict.t string :=
  [("NOW", strftime now); ("BOARD", board)].

(** The calls of [dispatch] when nothing raises; [now] is what the clock
    shows when [dispatch] starts. *)
Definition dispatch_events (E : Env) (now : DateTime) (args : Dict.t string)
    (arch board : string) (optional_tasks : Dict.t (Dict.t string))
  : list Event :=
  [DispatcherInit board (template_variables now board) optional_tasks]
  ++ ((fun n => EnableTask n true) <$> Dict.keys optional_tasks)
  ++ network_events E args arch
  ++ test_task_events E (Dict.get_default "renode-run" "" args)
  ++ match test_task_outcome E (Dict.get_default "renode-run" "" args) with
     | Ok t => [AddTask t; Evaluate]
     | Raise _ => []
     end.

(** The names switched off, and how often a name is switched on. *)
Definition disabled_names (tr : list Event) : list string :=
  omap (fun e => match e with EnableTask n false => Some n | _ => None end) tr.

Definition enabled_names (tr : list Event) : list string :=
  omap (fun e => match e with EnableTask n true => Some n | _ => None end) tr.

Definition times_enabled (name : string) (tr : list Event) : nat :=
  length (filter (fun n => n = name) (enabled_names tr)).

(** The order of the dispatcher calls: a rank for each call, and the ranks
    along a trace never go down. *)
Fixpoint nondecreasing (l : list nat) : bool :=
  match l with
  | x :: l' =>
      match l' with
      | y :: _ => (x <=? y)%nat && nondecreasing l'
      | [] => true
      end
  | [] => true
  end.

Definition ordered_by (rank : Event → option nat) (tr : list Event) : bool :=
  nondecreasing (omap rank tr).

(** Catalog first (construction and test task), then activation, then
    evaluation. *)
Definition rank_catalog_first (e : Event) : option nat :=
  match e with
  | DispatcherInit _ _ _ => Some 0
  | AddTask _ => Some 0
  | EnableTask _ _ => Some 1
  | Evaluate => Some 2
  | _ => None
  end.

(** Construction, then activation, then the test task, then evaluation. *)
Definition rank_test_task_last (e : Event) : option nat :=
  match e with
  | DispatcherInit _ _ _ => Some 0
  | EnableTask _ _ => Some 1
  | AddTask _ => Some 2
  | Evaluate => Some 3
  | _ => None
  end.

(** The dictionaries the collaborators return hold each key once. *)
Definition env_dicts_wf (E : Env) : Prop :=
  (∀ spec, Dict.wf (add_devices E spec))
  ∧ (∀ arch spec, Dict.wf (add_packages E arch spec)).

(** The collaborators never raise. *)
Definition never_raises (E : Env) : Prop :=
  ∀ tr e, raises E tr e = None.

(** What [prepare_image] may do to [commands], given the image asked for. *)
Definition mounts (image : string) : relation (list (list string)) :=
  fun c c' =>
    if decide (image = "none") then c' = c
    else c' = c ∨ c' = c ++ [mount_command].

(** The command line decodes to the mapping [args]. *)
Definition decoded_args (E : Env) (argv : list string) (args : Dict.t string)
  : Prop :=
  ∃ a, argv !! 1 = Some a ∧ json_loads E a = Some (Some args).

(** The architecture and the board a run settles on: what
    [configure_board] returns for the inputs of the command line. *)
Definition board_configured (E : Env) (argv : list string)
    (args : Dict.t string) (arch board : string) : Prop :=
  ∃ user_directory s s',
    argv !! 2 = Some user_directory ∧
    configure_board E user_directory
      (Dict.get_default "custom-config" "none" args)
      (Dict.get_default "arch" "riscv64" args)
      (Dict.get_default "board" "default" args)
      (Dict.get_default "resc" "default" args)
      (Dict.get_default "repl" "default" args) s = (s', Ok (arch, board)).

(** The mapping of optional tasks a run builds on line 165. *)
Definition optional_tasks_of (E : Env) (args : Dict.t string) (arch : string)
  : Dict.t (Dict.t string) :=
  add_devices E (Dict.get_default "devices" "" args)
  |. add_packages E arch (Dict.get_default "python-packages" "" args).

(** ** An environment for examples *)

Module Sample.

Definition arch_table : gmap string Arch :=
  {[ "riscv64" := {| default_board := "hifive_unleashed";
                     network_available := true |};
     "arm32" := {| default_board := "zynq_7000";
                   network_available := false |} ]}.

Definition devices (spec : string) : Dict.t (Dict.t string) :=
  (fun d => ("device-" +:+ d, [("name", d)])) <$> remove_dups (PyStr.splitlines spec).

Definition packages (arch spec : string) : Dict.t (Dict.t string) :=
  if decide (spec = "") then []
  else [("python-packages", [("arch", arch); ("packages", spec)])].

Definition yaml_load (text : string) : option (Dict.t PyVal) :=
  if decide (text = "body: [uname]") then Some [("body", PList ["uname"])]
  else None.

Definition defaults : Task :=
  {| task_name := ""; task_shell := "host"; task_requires := [];
     task_echo := false; task_body := []; task_enabled := true |}.

(** A clock that advances by a second with every call. *)
Definition clock (made : list Event) : DateTime :=
  {| year := 2023; month := 4; day := 7; hour := 9; minute := 30;
     second := length made mod 60 |}.

(** The command line decodes to [args]; nothing raises. *)
Definition env (args : Dict.t string) : Env :=
  {| archs := arch_table;
     json_loads := fun _ => Some (Some args);
     add_devices := devices;
     add_packages := packages;
     load_from_yaml := Task_load_from_yaml yaml_load defaults;
     from_multiline_string := Task_from_multiline_string defaults;
     datetime_now := clock;
     shared_directories_actions :=
       fun _ => [{| host := "out"; target := "home" |}];
     path_exists := fun _ _ => true;
     raises := fun _ _ => None |}.

Definition argv : list string :=
  ["run-in-renode.py"; "{...}"; "/github/workspace"; "antmicro/renode-linux-runner-action"; "v1"].

End Sample.

(** ** Variations of an environment *)

(** [E] with another decoder of the command line. *)
Definition with_json_loads
    (decode : string → option (option (Dict.t string))) (E : Env) : Env :=
  {| archs := archs E;
     json_loads := decode;
     add_devices := add_devices E;
     add_packages := add_packages E;
     load_from_yaml := load_from_yaml E;
     from_multiline_string := from_multiline_string E;
     datetime_now := datetime_now E;
     shared_directories_actions := shared_directories_actions E;
     path_exists := path_exists E;
     raises := raises E |}.

(** [E] with another account of which calls raise. *)
Definition with_raises
    (oracle : list Event → Event → option Exn) (E : Env) : Env :=
  {| archs := archs E;
     json_loads := json_loads E;
     add_devices := add_devices E;
     add_packages := add_packages E;
     load_from_yaml := load_from_yaml E;
     from_multiline_string := from_multiline_string E;
     datetime_now := datetime_now E;
     shared_directories_actions := shared_directories_actions E;
     path_exists := path_exists E;
     raises := oracle |}.

(** [E] in which no call raises. *)
Definition silence (E : Env) : Env := with_raises (fun _ _ => None) E.

(** The board [configure_board] settles on without a custom config: the
    default board of the architecture when "default" is asked for. *)
Definition resolved_board (ar : Arch) (board : string) : string :=
  if decide (board = "default") then default_board ar else board.

(** The fetches of [configure_board] without a custom config (lines
    80-84): both take [resc] as their source. *)
Definition board_fetches (ud board resc repl : string) : list Event :=
  (if decide (resc ≠ "default")
   then [GetFile resc ("action/device/" +:+ board +:+ "/init.resc") ud]
   else [])
  ++ (if decide (repl ≠ "default")
      then [GetFile resc ("action/device/" +:+ board +:+ "/platform.repl") ud]
      else []).

(** ** The calls of staging *)

(** The kernel handed to [prepare_kernel_and_initramfs] (lines 153-159). *)
Definition kernel_argument (repo ref arch board kernel : string) : string :=
  if PyStr.strip_is_empty kernel
  then DEFAULT_KERNEL_PATH repo ref arch board
  else kernel.

(** The image handed to [burn_rootfs_image] (lines 113-122). *)
Definition image_argument (repo ref arch image : string) : string :=
  if PyStr.strip_is_empty image
  then DEFAULT_IMAGE_PATH repo ref arch
  else image.

(** The fetches of the user task files (lines 176-177). *)
Definition task_fetch (ud : string) (numbered : nat * string) : Event :=
  GetFile numbered.2
    ("action/user_tasks/task" +:+ PyStr.of_nat numbered.1 +:+ ".yml") ud.

Definition task_fetches (ud tasks : string) : list Event :=
  task_fetch ud <$> enumerate (PyStr.splitlines tasks).

(** The calls of lines 159-177 when nothing raises, for the architecture
    and board that [configure_board] returned. *)
Definition staging_events (args : Dict.t string)
    (ud repo ref arch board : string) : list Event :=
  [PrepareKernelAndInitramfs ud
     (kernel_argument repo ref arch board (Dict.get_default "kernel" "" args));
   PrepareSharedDirectories (Dict.get_default "shared-dirs" "" args);
   AddDevices (Dict.get_default "devices" "" args);
   AddPackages arch (Dict.get_default "python-packages" "" args);
   AddRepos (Dict.get_default "repos" "" args)]
  ++ (if decide (Dict.get_default "image" "" args = "none") then []
      else [BurnRootfsImage ud
              (image_argument repo ref arch (Dict.get_default "image" "" args))
              arch
              (Dict.get_default "rootfs-size" "auto" args)
              (Dict.get_default "image-type" "native" args)])
  ++ task_fetches ud (Dict.get_default "tasks" "" args).

(** ** What the collaborators are never handed *)

(** A kernel preparation with a kernel that is not blank, an image burn
    with an image that is neither blank nor "none"; any other call. *)
Definition well_fed (e : Event) : bool :=
  match e with
  | PrepareKernelAndInitramfs _ kernel => negb (PyStr.strip_is_empty kernel)
  | BurnRootfsImage _ image _ _ _ =>
      negb (PyStr.strip_is_empty image) && negb (bool_decide (image = "none"))
  | _ => true
  end.

Definition fed (e : Event) : Prop := well_fed e = true.

(** [m] only adds calls that satisfy [P], and what it returns is in [Q]. *)
Definition ensures (P : Event → Prop) {A} (m : M A) (Q : A → Prop) : Prop :=
  ∀ s, ∃ evs,
    trace (m s).1 = trace s ++ evs ∧ Forall P evs
    ∧ ∀ a, (m s).2 = Ok a → Q a.

(** ** The calls that collect the results *)

(** The calls of lines 195-202. *)
Definition is_collect_call (e : Event) : bool :=
  match e with
  | Run _ | CopyTree _ _ => true
  | _ => false
  end.

(** A call that is neither a host command nor a copy back. *)
Definition idle (e : Event) : Prop := is_collect_call e = false.

(** The host commands a trace runs, in order. *)
Definition commands_run (tr : list Event) : list (list string) :=
  omap (fun e => match e with Run c => Some c | _ => None end) tr.

(** The copy of one shared directory back to the host (lines 199-202): a
    host path that starts with "/" is the destination itself, any other is
    taken under the user directory. *)
Definition copy_back (ud : string) (dir : SharedDir) : Event :=
  CopyTree ("rootfs/" +:+ target dir)
    (if negb (PyStr.startswith_char "/" (host dir))
     then ud +:+ "/" +:+ host dir
     else host dir).

(** The copies of the loop of lines 198-202 when nothing raises, [made]
    being the calls made before: a directory is copied when its source
    exists at that time. *)
Fixpoint copy_events (E : Env) (ud : string) (dirs : list SharedDir)
    (made : list Event) : list Event :=
  match dirs with
  | [] => []
  | dir :: dirs' =>
      if path_exists E made ("rootfs/" +:+ target dir)
      then copy_back ud dir
           :: copy_events E ud dirs' (made ++ [copy_back ud dir])
      else copy_events E ud dirs' made
  end.

(** The calls of [collect] started in [s] when nothing raises. *)
Definition collect_events (E : Env) (ud : string) (s : State) : list Event :=
  let ran := trace s ++ (Run <$> commands s) in
  (Run <$> commands s)
  ++ copy_events E ud (shared_directories_actions E ran) ran.

(** ** A run and the run in which nothing raises *)

(** [m] makes calls only, and goes as [m'] does until it raises: when [m]
    returns, [m'] ends in the same state with the same value; when [m]
    raises, the calls made are an initial part of those of [m']. *)
Definition cut_short {A} (m m' : M A) : Prop :=
  ∀ s,
    trace s `prefix_of` trace (m s).1
    ∧ match (m s).2 with
      | Ok _ => m' s = m s
      | Raise _ => trace (m s).1 `prefix_of` trace (m' s).1
      end.

(** ** The inputs with which a run can complete *)

(** The board can be configured and has a kernel: with a custom config a
    kernel is given; without one the architecture is in the table, a custom
    board comes with [resc] and [repl], and with a kernel. *)
Definition board_ok (E : Env) (args : Dict.t string) : Prop :=
  let kernel := Dict.get_default "kernel" "" args in
  if decide (Dict.get_default "custom-config" "none" args ≠ "none") then
    PyStr.strip_is_empty kernel = false
  else
    ∃ ar,
      archs E !! Dict.get_default "arch" "riscv64" args = Some ar
      ∧ let b := resolved_board ar (Dict.get_default "board" "default" args) in
        ¬ (b = "custom"
           ∧ (Dict.get_default "resc" "default" args = "default"
              ∨ Dict.get_default "repl" "default" args = "default"))
        ∧ ¬ (PyStr.strip_is_empty kernel = true ∧ b = "custom").

(** The network rule can be applied: the user opts out, or the
    architecture is in the table. *)
Definition network_ok (E : Env) (args : Dict.t string) : Prop :=
  Dict.get_default "network" "true" args ≠ "true"
  ∨ is_Some (archs E !! Dict.get_default "arch" "riscv64" args).

Definition run_conditions (E : Env) (argv : list string)
    (args : Dict.t string) : Prop :=
  length argv = 5
  ∧ decoded_args E argv args
  ∧ board_ok E args
  ∧ network_ok E args
  ∧ ∃ t, test_task_outcome E (Dict.get_default "renode-run" "" args) = Ok t.

(** The time stamp of the start of a run: the clock as it stands in the
    initial state, before the script has made any call, in the format of
    line 180. *)
Definition run_start_timestamp (E : Env) : string :=
  strftime (datetime_now E (trace initial_state)).

(** The number of digits of the year, which is what [%Y] writes. *)
Definition year_width (dt : DateTime) : nat :=
  String.length (PyStr.of_nat (year dt)).

(** * Properties *)

(** ** Python strings and dictionaries *)

Example splitlines_mixed_ends :
  PyStr.splitlines
    ("a" +:+ String "013" (String "010"
       ("b" +:+ String "010" (String "010" ("c" +:+ String "010" "")))))
  = ["a"; "b"; ""; "c"].
Proof. reflexivity. Qed.

Example splitlines_nothing : PyStr.splitlines "" = [].
Proof. reflexivity. Qed.

Example strip_is_empty_blank :
  PyStr.strip_is_empty (" " +:+ String "009" (String "010" "")) = true
  ∧ PyStr.strip_is_empty " x " = false.
Proof. split; reflexivity. Qed.

Example union_keeps_the_place_of_a_key :
  [("a", 1); ("b", 2)] |. [("b", 3); ("c", 4)] = [("a", 1); ("b", 3); ("c", 4)].
Proof. reflexivity. Qed.

Lemma length_append (a b : string) :
  String.length (a +:+ b) = String.length a + String.length b.
Proof. induction a as [|c a IH]; simpl; [done | by rewrite IH]. Qed.







(** ** Running the monad *)

Lemma bind_run {A B} (m : M A) (k : A → M B) s :
  bind m k s =
  match m s with
  | (s', Ok a) => k a s'
  | (s', Raise e) => (s', Raise e)
  end.
Proof. reflexivity. Qed.

Lemma bind_ok {A B} (m : M A) (k : A → M B) s s' a :
  m s = (s', Ok a) → bind m k s = k a s'.
Proof. intros H. unfold bind. by rewrite H. Qed.

Lemma bind_raise {A B} (m : M A) (k : A → M B) s s' e :
  m s = (s', Raise e) → bind m k s = (s', Raise e).
Proof. intros H. unfold bind. by rewrite H. Qed.

Lemma bind_ok_inv {A B} (m : M A) (k : A → M B) s s' b :
  bind m k s = (s', Ok b) →
  ∃ s1 a, m s = (s1, Ok a) ∧ k a s1 = (s', Ok b).
Proof.
  unfold bind. destruct (m s) as [s1 [a|e]]; intros H.
  - by exists s1, a.
  - discriminate.
Qed.

Lemma call_run (E : Env) e s :
  call E e s =
  (record e s, match raises E (trace s) e with None => Ok tt | Some x => Raise x end).
Proof. reflexivity. Qed.

(** ** Which calls a computation may add *)

Section Emits.

Context (E : Env) (P : Event → Prop).

Lemma emits_ret {A} (a : A) : emits P (ret a).
Proof. intros s. exists []. by rewrite app_nil_r. Qed.

Lemma emits_raise {A} e : emits P (@raise A e).
Proof. intros s. exists []. by rewrite app_nil_r. Qed.

Lemma emits_lift {A} (r : Result A) : emits P (lift r).
Proof. intros s. exists []. by rewrite app_nil_r. Qed.

Lemma emits_get_commands : emits P get_commands.
Proof. intros s. exists []. by rewrite app_nil_r. Qed.

Lemma emits_get_trace : emits P get_trace.
Proof. intros s. exists []. by rewrite app_nil_r. Qed.

Lemma emits_commands_append c : emits P (commands_append c).
Proof. intros s. exists []. by rewrite app_nil_r. Qed.

Lemma emits_log e : P e → emits P (log e).
Proof. intros H s. exists [e]. split; [done | by constructor]. Qed.

Lemma emits_call e : P e → emits P (call E e).
Proof. intros H s. exists [e]. split; [done | by constructor]. Qed.

Lemma emits_bind {A B} (m : M A) (k : A → M B) :
  emits P m → (∀ a, emits P (k a)) → emits P (bind m k).
Proof.
  intros Hm Hk s. destruct (Hm s) as (e1 & H1 & F1).
  rewrite bind_run. destruct (m s) as [s1 [a|x]]; simpl in *.
  - destruct (Hk a s1) as (e2 & H2 & F2).
    exists (e1 ++ e2). rewrite H2, H1, (assoc_L (++)).
    split; [done | by apply Forall_app].
  - by exists e1.
Qed.

Lemma emits_when c m : emits P m → emits P (when c m).
Proof. destruct c; [done | intros _; apply emits_ret]. Qed.

Lemma emits_for_each {A} (l : list A) body :
  (∀ x, emits P (body x)) → emits P (for_each l body).
Proof.
  intros H. induction l as [|x l IH]; simpl.
  - apply emits_ret.
  - apply emits_bind; [apply H | intros _; apply IH].
Qed.

Lemma emits_try_except_YAMLError {A} (m h : M A) :
  emits P m → emits P h → emits P (try_except_YAMLError m h).
Proof.
  intros Hm Hh s. unfold try_except_YAMLError.
  destruct (Hm s) as (e1 & H1 & F1).
  destruct (m s) as [s1 [a|x]]; simpl in *; [by exists e1 |].
  destruct x; try by exists e1.
  destruct (Hh s1) as (e2 & H2 & F2).
  exists (e1 ++ e2). rewrite H2, H1, (assoc_L (++)).
  split; [done | by apply Forall_app].
Qed.

Lemma emits_error msg : P (Error msg) → emits P (error msg).
Proof.
  intros H. apply emits_bind; [by apply emits_log | intros _; apply emits_raise].
Qed.

Lemma emits_archs_getitem arch : emits P (archs_getitem E arch).
Proof.
  unfold archs_getitem. destruct (archs E !! arch);
    [apply emits_ret | apply emits_raise].
Qed.

Lemma emits_argv_getitem argv i : emits P (argv_getitem argv i).
Proof.
  unfold argv_getitem. destruct (argv !! i);
    [apply emits_ret | apply emits_raise].
Qed.

End Emits.

Ltac emits_step :=
  match goal with
  | |- emits _ (bind _ _) => apply emits_bind; [| intros ?]
  | |- emits _ (ret _) => apply emits_ret
  | |- emits _ (raise _) => apply emits_raise
  | |- emits _ (lift _) => apply emits_lift
  | |- emits _ get_commands => apply emits_get_commands
  | |- emits _ get_trace => apply emits_get_trace
  | |- emits _ (commands_append _) => apply emits_commands_append
  | |- emits _ (call _ _) => apply emits_call; done
  | |- emits _ (log _) => apply emits_log; done
  | |- emits _ (error _) => apply emits_error; done
  | |- emits _ (archs_getitem _ _) => apply emits_archs_getitem
  | |- emits _ (argv_getitem _ _) => apply emits_argv_getitem
  | |- emits _ (when _ _) => apply emits_when
  | |- emits _ (for_each _ _) => apply emits_for_each; intros ?
  | |- emits _ (try_except_YAMLError _ _) => apply emits_try_except_YAMLError
  | |- emits _ (if ?c then _ else _) => destruct c
  | |- emits _ (match ?x with _ => _ end) => destruct x
  | |- emits _ (let '(_, _) := ?x in _) => destruct x
  end.

Ltac emits_auto := repeat emits_step.

Section EmitsScript.

Context (E : Env).

Lemma configure_board_emits ud cc arch board resc repl :
  emits quiet
    (configure_board E ud cc arch board resc repl).
Proof. unfold configure_board. emits_auto. Qed.

Lemma prepare_image_emits repo ref ud image arch size ty :
  emits quiet
    (prepare_image E repo ref ud image arch size ty).
Proof. unfold prepare_image. emits_auto. Qed.

Lemma parse_arguments_emits argv :
  emits quiet (parse_arguments E argv).
Proof. unfold parse_arguments. emits_auto. Qed.

Lemma stage_emits args ud repo ref :
  emits quiet (stage E args ud repo ref).
Proof.
  unfold stage. emits_auto; try apply prepare_image_emits;
    try apply configure_board_emits.
Qed.

Lemma collect_emits ud :
  emits quiet (collect E ud).
Proof. unfold collect. emits_auto. Qed.

End EmitsScript.

(** ** The calls a computation makes, up to the point where it raises *)

Section Follows.

Context (E : Env).

Lemma follows_ret {A} (a : A) : follows (ret a) [] (fun x => x = a).
Proof. intros s. unfold follows_from. simpl. by rewrite app_nil_r. Qed.

Lemma follows_call e : follows (call E e) [e] (fun _ => True).
Proof.
  intros s. unfold follows_from. rewrite call_run. simpl. split; [done |].
  destruct (raises E (trace s) e); [by exists [e] | done].
Qed.

Lemma follows_bind {A B} (m : M A) (k : A → M B) i1 i2 Q1 Q2 :
  follows m i1 Q1 → (∀ a, Q1 a → follows (k a) i2 Q2) →
  follows (bind m k) (i1 ++ i2) Q2.
Proof.
  intros Hm Hk s. destruct (Hm s) as [Hc Ht]. unfold follows_from.
  rewrite bind_run.
  destruct (m s) as [s1 [a|x]]; simpl in *.
  - destruct Ht as [Ht Ha]. destruct (Hk a Ha s1) as [Hc' Ht'].
    split; [congruence |].
    destruct ((k a s1).2).
    + destruct Ht' as [-> HQ]. by rewrite Ht, (assoc_L (++)).
    + destruct Ht' as (evs & -> & Hp). exists (i1 ++ evs).
      rewrite Ht, (assoc_L (++)). split; [done | by apply prefix_app].
  - split; [done |]. destruct Ht as (evs & -> & Hp).
    exists evs. split; [done | by apply prefix_app_r].
Qed.

Lemma follows_weaken {A} (m : M A) ideal (Q Q' : A → Prop) :
  follows m ideal Q → (∀ a, Q a → Q' a) → follows m ideal Q'.
Proof.
  intros Hm HQ s. destruct (Hm s) as [Hc Ht]. split; [done |].
  destruct ((m s).2); [| done]. destruct Ht. auto.
Qed.

Lemma follows_for_each_call {A} (l : list A) (f : A → Event) :
  follows (for_each l (fun x => call E (f x))) (f <$> l) (fun _ => True).
Proof.
  induction l as [|x l IH]; simpl.
  - eapply follows_weaken; [apply follows_ret | done].
  - apply (follows_bind _ _ [f x] (f <$> l) (fun _ => True));
      [apply follows_call | intros _ _; apply IH].
Qed.

Lemma follows_test_task text :
  follows (test_task E text) (test_task_events E text)
    (fun t => test_task_outcome E text = Ok t).
Proof.
  intros s. unfold follows_from, test_task, try_except_YAMLError,
    test_task_events, test_task_outcome, log, lift. rewrite !bind_run. simpl.
  destruct (load_from_yaml E text test_task_params) as [t|x]; simpl.
  - done.
  - destruct x; simpl;
      try (split; [done |]; eexists; split; [done |]; by apply prefix_cons, prefix_nil).
    split; [done |].
    destruct (from_multiline_string E "action_test" text test_task_params)
      eqn:Hf; rewrite <- (assoc_L (++)); simpl; [done |].
    by eexists.
Qed.

Lemma follows_disable_network args arch :
  follows (disable_network E args arch) (network_events E args arch)
    (fun _ => True).
Proof.
  unfold disable_network, network_events.
  destruct (decide (Dict.get_default "network" "true" args ≠ "true")).
  - apply (follows_bind _ _ [] _ (fun b => b = true));
      [apply follows_ret | intros ? ->; simpl].
    apply (follows_for_each_call ["host"; "renode"; "target"]
             (fun i => EnableTask (i +:+ "_network") false)).
  - unfold archs_getitem. destruct (archs E !! arch) as [a|].
    + apply (follows_bind _ _ [] _ (fun b => b = negb (network_available a))).
      * apply (follows_bind _ _ [] [] (fun x => x = a));
          [apply follows_ret | intros ? ->; apply follows_ret].
      * intros ? ->. destruct (network_available a); simpl.
        -- eapply follows_weaken; [apply follows_ret | done].
        -- apply (follows_for_each_call ["host"; "renode"; "target"]
                    (fun i => EnableTask (i +:+ "_network") false)).
    + intros s. unfold follows_from. rewrite !bind_run. simpl.
      split; [done |].
      exists []. by rewrite app_nil_r.
Qed.

Lemma follows_dispatch args arch board optional_tasks s :
  follows_from s (dispatch E args arch board optional_tasks)
    (dispatch_events E (datetime_now E (trace s)) args arch board
       optional_tasks)
    (fun _ => True).
Proof.
  unfold dispatch.
  assert (∀ (k : list Event → M unit) ideal Q,
            follows (k (trace s)) ideal Q →
            follows_from s (bind get_trace k) ideal Q) as Hget.
  { intros k ideal Q H. exact (H s). }
  apply Hget. unfold dispatch_events.
  eapply follows_bind; [apply follows_call | intros _ _].
  eapply follows_bind;
    [apply (follows_for_each_call _ (fun n => EnableTask n true)) | intros _ _].
  eapply follows_bind; [apply follows_disable_network | intros _ _].
  eapply follows_bind; [apply follows_test_task | intros t Ht].
  rewrite Ht.
  apply (follows_bind _ _ [AddTask t] [Evaluate] (fun _ => True));
    [apply follows_call | intros _ _; apply follows_call].
Qed.

End Follows.

(** ** What happens to the list [commands] *)

Section Commands.

Context (E : Env).

Lemma commands_ret {A} (a : A) : commands_rel eq (ret a).
Proof. by intros s. Qed.

Lemma commands_raise {A} e : commands_rel eq (@raise A e).
Proof. by intros s. Qed.

Lemma commands_lift {A} (r : Result A) : commands_rel eq (lift r).
Proof. by intros s. Qed.

Lemma commands_log e : commands_rel eq (log e).
Proof. by intros s. Qed.

Lemma commands_call e : commands_rel eq (call E e).
Proof. by intros s. Qed.

Lemma commands_get_commands : commands_rel eq get_commands.
Proof. by intros s. Qed.

Lemma commands_get_trace : commands_rel eq get_trace.
Proof. by intros s. Qed.

Lemma commands_bind_l {A B} R (m : M A) (k : A → M B) :
  commands_rel eq m → (∀ a, commands_rel R (k a)) → Reflexive R →
  commands_rel R (bind m k).
Proof.
  intros Hm Hk HR s. specialize (Hm s). rewrite bind_run.
  destruct (m s) as [s1 [a|x]]; simpl in *.
  - rewrite Hm. apply Hk.
  - by rewrite Hm.
Qed.

Lemma commands_bind_r {A B} R (m : M A) (k : A → M B) :
  commands_rel R m → (∀ a, commands_rel eq (k a)) →
  commands_rel R (bind m k).
Proof.
  intros Hm Hk s. specialize (Hm s). rewrite bind_run.
  destruct (m s) as [s1 [a|x]]; simpl in *; [| done].
  by rewrite <- (Hk a s1).
Qed.

Lemma commands_bind {A B} (m : M A) (k : A → M B) :
  commands_rel eq m → (∀ a, commands_rel eq (k a)) →
  commands_rel eq (bind m k).
Proof. intros Hm Hk. apply commands_bind_l; [done | done | by intros ?]. Qed.

Lemma commands_when c m : commands_rel eq m → commands_rel eq (when c m).
Proof. destruct c; [done | intros _; apply commands_ret]. Qed.

Lemma commands_for_each {A} (l : list A) body :
  (∀ x, commands_rel eq (body x)) → commands_rel eq (for_each l body).
Proof.
  intros H. induction l as [|x l IH]; simpl.
  - apply commands_ret.
  - apply commands_bind; [apply H | intros _; apply IH].
Qed.

Lemma commands_error msg : commands_rel eq (error msg).
Proof.
  apply commands_bind; [apply commands_log | intros _; apply commands_raise].
Qed.

Lemma commands_archs_getitem arch : commands_rel eq (archs_getitem E arch).
Proof.
  unfold archs_getitem. destruct (archs E !! arch);
    [apply commands_ret | apply commands_raise].
Qed.

Lemma commands_argv_getitem argv i : commands_rel eq (argv_getitem argv i).
Proof.
  unfold argv_getitem. destruct (argv !! i);
    [apply commands_ret | apply commands_raise].
Qed.

End Commands.

Ltac commands_step :=
  match goal with
  | |- commands_rel eq (bind _ _) => apply commands_bind; [| intros ?]
  | |- commands_rel eq (ret _) => apply commands_ret
  | |- commands_rel eq (raise _) => apply commands_raise
  | |- commands_rel eq (lift _) => apply commands_lift
  | |- commands_rel eq get_commands => apply commands_get_commands
  | |- commands_rel eq get_trace => apply commands_get_trace
  | |- commands_rel eq (call _ _) => apply commands_call
  | |- commands_rel eq (log _) => apply commands_log
  | |- commands_rel eq (error _) => apply commands_error
  | |- commands_rel eq (archs_getitem _ _) => apply commands_archs_getitem
  | |- commands_rel eq (argv_getitem _ _) => apply commands_argv_getitem
  | |- commands_rel eq (when _ _) => apply commands_when
  | |- commands_rel eq (for_each _ _) => apply commands_for_each; intros ?
  | |- commands_rel eq (if ?c then _ else _) => destruct c
  | |- commands_rel eq (match ?x with _ => _ end) => destruct x
  | |- commands_rel eq (let '(_, _) := ?x in _) => destruct x
  end.

Ltac commands_auto := repeat commands_step.

Section CommandsScript.

Context (E : Env).

Lemma configure_board_commands ud cc arch board resc repl :
  commands_rel eq (configure_board E ud cc arch board resc repl).
Proof. unfold configure_board. commands_auto. Qed.

Lemma parse_arguments_commands argv :
  commands_rel eq (parse_arguments E argv).
Proof. unfold parse_arguments. commands_auto. Qed.

Lemma collect_commands ud : commands_rel eq (collect E ud).
Proof. unfold collect. commands_auto. Qed.

Lemma prepare_image_commands repo ref ud image arch size ty :
  commands_rel (mounts image) (prepare_image E repo ref ud image arch size ty).
Proof.
  intros s. unfold mounts, prepare_image.
  destruct (decide (image = "none")); [done |].
  rewrite bind_run, call_run.
  destruct (raises E (trace s) _); simpl; auto.
Qed.

Lemma stage_commands args ud repo ref :
  commands_rel (mounts (Dict.get_default "image" "" args))
    (stage E args ud repo ref).
Proof.
  assert (Reflexive (mounts (Dict.get_default "image" "" args))) as HR.
  { intros c. unfold mounts. case_decide; auto. }
  unfold stage.
  apply commands_bind_l; [apply configure_board_commands | | done].
  intros [arch board].
  apply commands_bind_l; [commands_auto | | done]. intros kernel.
  do 5 (apply commands_bind_l; [apply commands_call | intros _ | done]).
  apply commands_bind_r; [apply prepare_image_commands |].
  intros _. commands_auto.
Qed.

End CommandsScript.

(** ** Dictionaries *)

Section DictFacts.

Context {V : Type}.
Implicit Types (d other : Dict.t V) (k : string) (v : V).

Lemma Dict_get_None k d : Dict.get k d = None ↔ k ∉ Dict.keys d.
Proof.
  induction d as [|[k' v'] d IH]; simpl.
  - split; [intros _; apply not_elem_of_nil | done].
  - rewrite not_elem_of_cons. destruct (decide (k = k')) as [->|Hne].
    + split; [done | by intros [? _]].
    + rewrite IH. split; [done | by intros [_ ?]].
Qed.

Lemma Dict_get_set k k' v d :
  Dict.get k (Dict.set k' v d) =
  if decide (k = k') then Some v else Dict.get k d.
Proof.
  induction d as [|[k'' v''] d IH]; simpl.
  - done.
  - destruct (decide (k' = k'')) as [->|Hne]; simpl.
    + by destruct (decide (k = k'')).
    + rewrite IH. destruct (decide (k = k'')) as [->|]; [| done].
      by rewrite decide_False.
Qed.

Lemma Dict_keys_set k v d :
  Dict.keys (Dict.set k v d) =
  if decide (k ∈ Dict.keys d) then Dict.keys d else Dict.keys d ++ [k].
Proof.
  induction d as [|[k' v'] d IH]; simpl.
  - done.
  - destruct (decide (k = k')) as [->|Hne]; simpl.
    + by rewrite decide_True by apply list_elem_of_here.
    + rewrite IH. destruct (decide (k ∈ Dict.keys d)) as [Hin|Hin].
      * by rewrite decide_True by by apply list_elem_of_further.
      * rewrite decide_False; [done |]. by rewrite not_elem_of_cons.
Qed.

Lemma Dict_wf_set k v d : Dict.wf d → Dict.wf (Dict.set k v d).
Proof.
  unfold Dict.wf. intros H. rewrite Dict_keys_set. case_decide; [done |].
  apply NoDup_app. split; [done |]. split.
  - intros x Hx ->%list_elem_of_singleton. done.
  - apply NoDup_singleton.
Qed.

Lemma Dict_elem_of_keys_set k k' v d :
  k ∈ Dict.keys (Dict.set k' v d) ↔ k = k' ∨ k ∈ Dict.keys d.
Proof.
  rewrite Dict_keys_set. case_decide as Hin.
  - split; [by right | by intros [->|?]].
  - rewrite elem_of_app, list_elem_of_singleton. tauto.
Qed.

Lemma Dict_update_cons d k v other :
  Dict.update d ((k, v) :: other) = Dict.update (Dict.set k v d) other.
Proof. reflexivity. Qed.

Lemma Dict_get_update k d other :
  Dict.wf other →
  Dict.get k (Dict.update d other) =
  match Dict.get k other with
  | Some v => Some v
  | None => Dict.get k d
  end.
Proof.
  revert d. induction other as [|[k' v'] other IH]; intros d Hwf.
  - done.
  - apply NoDup_cons in Hwf as [Hk' Hwf]. simpl in Hk'.
    rewrite Dict_update_cons, IH by done. simpl.
    destruct (decide (k = k')) as [->|Hne].
    + apply Dict_get_None in Hk'. rewrite Hk', Dict_get_set.
      by rewrite decide_True.
    + rewrite Dict_get_set. by rewrite decide_False.
Qed.

Lemma Dict_elem_of_keys_update k d other :
  k ∈ Dict.keys (Dict.update d other)
  ↔ k ∈ Dict.keys d ∨ k ∈ Dict.keys other.
Proof.
  revert d. induction other as [|[k' v'] other IH]; intros d.
  - simpl. rewrite elem_of_nil. tauto.
  - rewrite Dict_update_cons, IH, Dict_elem_of_keys_set. simpl.
    rewrite elem_of_cons. tauto.
Qed.

Lemma Dict_wf_update d other : Dict.wf d → Dict.wf (Dict.update d other).
Proof.
  revert d. induction other as [|[k' v'] other IH]; intros d Hwf.
  - done.
  - rewrite Dict_update_cons. by apply IH, Dict_wf_set.
Qed.

End DictFacts.

(** ** The script, step by step *)

Tactic Notation "bind_inv" hyp(H) "as" ident(s) ident(a) ident(H1) :=
  apply bind_ok_inv in H as (s & a & H1 & H).

Section Steps.

Context (E : Env).

Lemma when_error_ok_inv c msg s s' u :
  when c (error msg) s = (s', Ok u) → c = false ∧ s' = s.
Proof. destruct c; [discriminate | by intros [= <-]]. Qed.

Lemma archs_getitem_ok_inv arch s s' a :
  archs_getitem E arch s = (s', Ok a) → archs E !! arch = Some a ∧ s' = s.
Proof.
  unfold archs_getitem. destruct (archs E !! arch);
    [by intros [= <- <-] | discriminate].
Qed.

Lemma argv_getitem_ok_inv argv i s s' a :
  argv_getitem argv i s = (s', Ok a) → argv !! i = Some a ∧ s' = s.
Proof.
  unfold argv_getitem. destruct (argv !! i);
    [by intros [= <- <-] | discriminate].
Qed.

Lemma configure_board_ok_inv ud cc arch board resc repl s s' a b :
  configure_board E ud cc arch board resc repl s = (s', Ok (a, b)) →
  a = arch
  ∧ (cc ≠ "none" → b = "custom")
  ∧ (cc = "none" →
     ∃ ar, archs E !! arch = Some ar
           ∧ b = if decide (board = "default") then default_board ar
                 else board).
Proof.
  unfold configure_board. intros H.
  destruct (decide (cc ≠ "none")) as [Hcc|Hcc].
  - bind_inv H as s1 u1 H1. injection H as <- <- <-. done.
  - bind_inv H as s1 u1 H1. apply when_error_ok_inv in H1 as [Hin ->].
    apply bool_decide_eq_false in Hin.
    destruct (archs E !! arch) as [ar|] eqn:Har; [| done].
    bind_inv H as s2 b2 H2. bind_inv H as s3 u3 H3.
    bind_inv H as s4 u4 H4. bind_inv H as s5 u5 H5.
    injection H as <- <- <-.
    split; [done |]. split; [done |]. intros _. exists ar. split; [done |].
    destruct (decide (board = "default")).
    + bind_inv H2 as s6 a6 H6. apply archs_getitem_ok_inv in H6 as [Hl ->].
      injection H2 as <- <-. congruence.
    + by injection H2 as <- <-.
Qed.

Lemma parse_arguments_ok_inv argv s s' args ud repo ref :
  parse_arguments E argv s = (s', Ok (args, ud, repo, ref)) →
  decoded_args E argv args ∧ argv !! 2 = Some ud ∧ s' = s.
Proof.
  unfold parse_arguments. intros H. bind_inv H as s1 u1 H1.
  apply when_error_ok_inv in H1 as [_ ->]. bind_inv H as s2 a2 H2.
  apply argv_getitem_ok_inv in H2 as [Ha ->]. bind_inv H as s3 a3 H3.
  destruct (json_loads E a2) as [[d|]|] eqn:Hj.
  - injection H3 as <- <-.
    bind_inv H as s4 a4 H4. bind_inv H as s5 a5 H5. bind_inv H as s6 a6 H6.
    apply argv_getitem_ok_inv in H4 as [H4 ->].
    apply argv_getitem_ok_inv in H5 as [H5 ->].
    apply argv_getitem_ok_inv in H6 as [H6 ->].
    injection H as <- <- <- <- <-. split; [by exists a2 | done].
  - by injection H3 as <- <-.
  - bind_inv H3 as s4 a4 H4. bind_inv H3 as s5 a5 H5. discriminate.
Qed.

Lemma stage_ok_inv args ud repo ref s s' arch board opt :
  stage E args ud repo ref s = (s', Ok (arch, board, opt)) →
  (∃ s1, configure_board E ud
           (Dict.get_default "custom-config" "none" args)
           (Dict.get_default "arch" "riscv64" args)
           (Dict.get_default "board" "default" args)
           (Dict.get_default "resc" "default" args)
           (Dict.get_default "repl" "default" args) s = (s1, Ok (arch, board)))
  ∧ opt = optional_tasks_of E args arch.
Proof.
  unfold stage. intros H. bind_inv H as s1 ab H1. destruct ab as [a b].
  simpl in H.
  bind_inv H as s2 k2 H2. bind_inv H as s3 u3 H3. bind_inv H as s4 u4 H4.
  bind_inv H as s5 u5 H5. bind_inv H as s6 u6 H6. bind_inv H as s7 u7 H7.
  bind_inv H as s8 u8 H8. bind_inv H as s9 u9 H9.
  injection H as <- <- <- <-. eauto.
Qed.

End Steps.

(** ** A whole run *)

Section Run.

Context (E : Env).

(** A run either stops before it builds the dispatcher, or its trace is the
    staging calls, then a prefix of the dispatch calls, then the calls that
    collect the results. *)
Lemma main_run argv :
  Forall quiet (trace (run_main E argv).1)
  ∨ ∃ args ud repo ref s0 arch board opt s1 evs post,
      parse_arguments E argv initial_state = (s0, Ok (args, ud, repo, ref))
      ∧ stage E args ud repo ref s0 = (s1, Ok (arch, board, opt))
      ∧ trace (run_main E argv).1 = trace s1 ++ evs ++ post
      ∧ evs `prefix_of`
          dispatch_events E (datetime_now E (trace s1)) args arch board opt
      ∧ Forall quiet (trace s1) ∧ Forall quiet post
      ∧ commands (run_main E argv).1 = commands s1.
Proof.
  unfold run_main, main. rewrite bind_run.
  destruct (parse_arguments_emits E argv initial_state) as (e0 & H0 & F0).
  destruct (parse_arguments E argv initial_state)
    as [s0 [[[[args ud] repo] ref]|x]] eqn:Hp; simpl in *.
  2: { left. by rewrite H0. }
  rewrite bind_run.
  destruct (stage_emits E args ud repo ref s0) as (e1 & H1 & F1).
  destruct (stage E args ud repo ref s0) as [s1 [[[arch board] opt]|x]] eqn:Hs;
    simpl in *.
  2: { left. rewrite H1, H0. by apply Forall_app. }
  right. exists args, ud, repo, ref, s0, arch, board, opt, s1.
  assert (Forall quiet (trace s1)) as Fs1.
  { rewrite H1, H0. by apply Forall_app. }
  rewrite bind_run.
  destruct (follows_dispatch E args arch board opt s1) as [Hc Hd].
  destruct (dispatch E args arch board opt s1) as [s2 [[]|x]] eqn:Hdis;
    simpl in *.
  - destruct Hd as [Hd _].
    destruct (collect_emits E ud s2) as (e2 & H2 & F2).
    exists (dispatch_events E (datetime_now E (trace s1)) args arch board opt),
      e2.
    rewrite H2, Hd, <- (assoc_L (++)).
    rewrite <- (collect_commands E ud s2), Hc. done.
  - destruct Hd as (evs & Hd & Hpre). exists evs, [].
    rewrite app_nil_r. done.
Qed.

Lemma quiet_not_dispatcher l e :
  Forall quiet l → is_dispatcher_call e = true → e ∉ l.
Proof.
  intros Hl He Hin. rewrite Forall_forall in Hl.
  specialize (Hl e Hin). unfold quiet in Hl. by rewrite He in Hl.
Qed.

Lemma quiet_not_constructor l e :
  Forall quiet l → is_task_constructor e = true → e ∉ l.
Proof.
  intros Hl He Hin. rewrite Forall_forall in Hl.
  specialize (Hl e Hin). unfold quiet in Hl.
  rewrite He, orb_true_r in Hl. done.
Qed.

Lemma network_events_enable args arch :
  Forall (fun e => ∃ n, e = EnableTask n false) (network_events E args arch).
Proof.
  unfold network_events, network_tasks.
  repeat case_match; simpl; repeat constructor; eauto.
Qed.

Lemma test_task_events_constructor text :
  Forall (fun e => is_task_constructor e = true) (test_task_events E text).
Proof.
  unfold test_task_events. repeat case_match; repeat constructor.
Qed.

(** [Evaluate] is the last call of [dispatch] and occurs nowhere before. *)
Lemma dispatch_events_evaluate now args arch board opt evs :
  evs `prefix_of` dispatch_events E now args arch board opt →
  Evaluate ∈ evs →
  evs = dispatch_events E now args arch board opt
  ∧ ∃ t, test_task_outcome E (Dict.get_default "renode-run" "" args) = Ok t.
Proof.
  unfold dispatch_events. intros Hpre Hin.
  set (front :=
         [DispatcherInit board (template_variables now board) opt]
         ++ ((fun n => EnableTask n true) <$> Dict.keys opt)
         ++ network_events E args arch
         ++ test_task_events E (Dict.get_default "renode-run" "" args)).
  assert (Evaluate ∉ front) as Hfront.
  { unfold front. rewrite !not_elem_of_app. repeat split.
    - by intros ?%list_elem_of_singleton.
    - by intros (? & ? & ?)%list_elem_of_fmap.
    - intros H. pose proof (network_events_enable args arch) as F.
      rewrite Forall_forall in F. by destruct (F _ H).
    - intros H.
      pose proof
        (test_task_events_constructor (Dict.get_default "renode-run" "" args))
        as F.
      rewrite Forall_forall in F. by specialize (F _ H). }
  destruct (test_task_outcome E (Dict.get_default "renode-run" "" args))
    as [t|x] eqn:Ht.
  - split; [| by exists t].
    assert (∀ tl, [DispatcherInit board (template_variables now board) opt] ++
      ((fun n => EnableTask n true) <$> Dict.keys opt) ++
      network_events E args arch ++
      test_task_events E (Dict.get_default "renode-run" "" args) ++ tl
      = front ++ tl) as Heq.
    { intros tl. unfold front. by rewrite <- !(assoc_L (++)). }
    rewrite Heq in *.
    destruct Hpre as [k Hk].
    destruct (decide (k = [])) as [->|Hne]; [by rewrite app_nil_r in Hk |].
    exfalso.
    assert (evs `prefix_of` front ++ [AddTask t]) as Hp2.
    { destruct (exists_last Hne) as (k' & y & ->).
      rewrite (assoc_L (++) evs k' [y]) in Hk.
      change [AddTask t; Evaluate] with ([AddTask t] ++ [Evaluate]) in Hk.
      rewrite (assoc_L (++) front) in Hk.
      apply app_inj_tail in Hk as [Hk _]. by exists k'. }
    destruct Hp2 as [k2 Hk2].
    assert (Evaluate ∈ front ++ [AddTask t]) as Hbad.
    { rewrite Hk2. apply elem_of_app. by left. }
    apply elem_of_app in Hbad as [?|Hbad%list_elem_of_singleton]; done.
  - exfalso. apply Hfront.
    assert ([DispatcherInit board (template_variables now board) opt] ++
      ((fun n => EnableTask n true) <$> Dict.keys opt) ++
      network_events E args arch ++
      test_task_events E (Dict.get_default "renode-run" "" args) ++ []
      = front) as Heq.
    { unfold front. by rewrite app_nil_r. }
    rewrite Heq in Hpre. destruct Hpre as [k ->].
    apply elem_of_app. by left.
Qed.

(** A run that gets to evaluate the catalog made every call of [dispatch],
    between calls that do not go to the dispatcher. *)
Lemma main_reaches_evaluate argv :
  Evaluate ∈ trace (run_main E argv).1 →
  ∃ args arch board pre post t,
    decoded_args E argv args
    ∧ board_configured E argv args arch board
    ∧ arch = Dict.get_default "arch" "riscv64" args
    ∧ test_task_outcome E (Dict.get_default "renode-run" "" args) = Ok t
    ∧ trace (run_main E argv).1 =
        pre
        ++ dispatch_events E (datetime_now E pre) args arch board
             (optional_tasks_of E args arch)
        ++ post
    ∧ Forall quiet pre ∧ Forall quiet post.
Proof.
  intros Hin. destruct (main_run argv) as [Hq | H].
  { by apply (quiet_not_dispatcher _ Evaluate) in Hq. }
  destruct H as (args & ud & repo & ref & s0 & arch & board & opt & s1 & evs
                 & post & Hp & Hs & Ht & Hpre & Fs1 & Fpost & _).
  apply parse_arguments_ok_inv in Hp as (Hdec & Hud & ->).
  pose proof Hs as Hs'. apply stage_ok_inv in Hs' as [[sx Hcb] ->].
  pose proof Hcb as Hcb'.
  apply configure_board_ok_inv in Hcb' as (-> & _).
  rewrite Ht in Hin. rewrite !elem_of_app in Hin.
  destruct Hin as [Hin | [Hin | Hin]];
    [by apply (quiet_not_dispatcher _ Evaluate) in Fs1 | |
     by apply (quiet_not_dispatcher _ Evaluate) in Fpost].
  destruct (dispatch_events_evaluate _ _ _ _ _ _ Hpre Hin) as [-> [t Hout]].
  exists args, (Dict.get_default "arch" "riscv64" args), board, (trace s1),
    post, t.
  repeat split; try done.
  by exists ud, initial_state, sx.
Qed.

Lemma prefix_app_split {A} (evs front back : list A) x :
  evs `prefix_of` front ++ back → x ∈ evs → x ∉ front →
  ∃ evs', evs = front ++ evs' ∧ evs' `prefix_of` back.
Proof.
  intros Hpre Hin Hx.
  assert (front `prefix_of` front ++ back) as Hfront by by exists back.
  destruct (prefix_weak_total evs front (front ++ back) Hpre Hfront)
    as [[k Hk] | [k Hk]].
  - destruct Hx. rewrite Hk. apply elem_of_app. by left.
  - exists k. split; [done |]. rewrite Hk in Hpre.
    by apply prefix_app_inv in Hpre.
Qed.

(** A run that gets to build the test task constructed the dispatcher,
    switched on the optional tasks and applied the network rule, in this
    order, after calls that are quiet and before calls that switch no task
    on or off. *)
Lemma main_past_activation argv :
  builds_test_task (trace (run_main E argv).1) →
  ∃ args arch board pre rest,
    decoded_args E argv args
    ∧ board_configured E argv args arch board
    ∧ arch = Dict.get_default "arch" "riscv64" args
    ∧ trace (run_main E argv).1 =
        pre
        ++ ([DispatcherInit board (template_variables (datetime_now E pre) board)
               (optional_tasks_of E args arch)]
            ++ ((fun n => EnableTask n true)
                  <$> Dict.keys (optional_tasks_of E args arch))
            ++ network_events E args arch)
        ++ rest
    ∧ Forall quiet pre
    ∧ Forall (fun e => ∀ n b, e ≠ EnableTask n b) rest.
Proof.
  intros (text & p & Hin). destruct (main_run argv) as [Hq | H].
  { by apply (quiet_not_constructor _ (LoadFromYaml text p)) in Hq. }
  destruct H as (args & ud & repo & ref & s0 & arch & board & opt & s1 & evs
                 & post & Hp & Hs & Ht & Hpre & Fs1 & Fpost & _).
  apply parse_arguments_ok_inv in Hp as (Hdec & Hud & ->).
  pose proof Hs as Hs'. apply stage_ok_inv in Hs' as [[sx Hcb] ->].
  pose proof Hcb as Hcb'.
  apply configure_board_ok_inv in Hcb' as (-> & _).
  rewrite Ht in Hin. rewrite !elem_of_app in Hin.
  destruct Hin as [Hin | [Hin | Hin]];
    [by apply (quiet_not_constructor _ (LoadFromYaml text p)) in Fs1 | |
     by apply (quiet_not_constructor _ (LoadFromYaml text p)) in Fpost].
  set (arch := Dict.get_default "arch" "riscv64" args) in *.
  set (opt := optional_tasks_of E args arch) in *.
  set (now := datetime_now E (trace s1)) in *.
  set (front :=
         [DispatcherInit board (template_variables now board) opt]
         ++ ((fun n => EnableTask n true) <$> Dict.keys opt)
         ++ network_events E args arch).
  set (back :=
         test_task_events E (Dict.get_default "renode-run" "" args)
         ++ match test_task_outcome E (Dict.get_default "renode-run" "" args)
            with
            | Ok t => [AddTask t; Evaluate]
            | Raise _ => []
            end).
  assert (dispatch_events E now args arch board opt = front ++ back) as Heq.
  { unfold dispatch_events, front, back. by rewrite <- !(assoc_L (++)). }
  rewrite Heq in Hpre.
  assert (LoadFromYaml text p ∉ front) as Hfront.
  { unfold front. rewrite !not_elem_of_app. repeat split.
    - by intros ?%list_elem_of_singleton.
    - by intros (? & ? & ?)%list_elem_of_fmap.
    - intros H. pose proof (network_events_enable args arch) as F.
      rewrite Forall_forall in F. by destruct (F _ H). }
  destruct (prefix_app_split _ _ _ _ Hpre Hin Hfront) as (evs' & -> & Hevs').
  exists args, arch, board, (trace s1), (evs' ++ post).
  repeat split; try done.
  - by exists ud, initial_state, sx.
  - rewrite Ht. f_equal. symmetry. apply (assoc_L (++)).
  - apply Forall_app. split.
    + apply Forall_forall. intros e He n b ->.
      destruct Hevs' as [k Hk].
      assert (EnableTask n b ∈ back) as Hb.
      { rewrite Hk. apply elem_of_app. by left. }
      unfold back in Hb. apply elem_of_app in Hb as [Hb | Hb].
      * pose proof (test_task_events_constructor
                      (Dict.get_default "renode-run" "" args)) as F.
        rewrite Forall_forall in F. by specialize (F _ Hb).
      * case_match; rewrite ?elem_of_cons, ?elem_of_nil in Hb;
          intuition discriminate.
    + eapply Forall_impl; [exact Fpost |]. by intros [] Hq n b.
Qed.

End Run.

(** ** Observations *)

Lemma events_of_app {A} (m : M A) s evs :
  trace (m s).1 = trace s ++ evs → events_of m s = evs.
Proof. intros H. unfold events_of. rewrite H. apply drop_app_length. Qed.

(** ** The test task *)

(** What [test_task] does, whatever the state it starts in. *)
Lemma test_task_run (E : Env) (text : string) (s : State) :
  events_of (test_task E text) s = test_task_events E text
  ∧ outcome_of (test_task E text) s = test_task_outcome E text
  ∧ commands (test_task E text s).1 = commands s.
Proof.
  unfold events_of, outcome_of, test_task, try_except_YAMLError,
    test_task_events, test_task_outcome, log, lift.
  rewrite !bind_run. simpl.
  destruct (load_from_yaml E text test_task_params) as [t|[]]; simpl;
    rewrite ?drop_app_length; try done.
  rewrite <- (assoc_L (++)), drop_app_length. done.
Qed.

Lemma fallback_in_test_task_events (E : Env) (text : string) name t p :
  FromMultilineString name t p ∈ test_task_events E text ↔
  load_from_yaml E text test_task_params = Raise YAMLError
  ∧ name = "action_test" ∧ t = text ∧ p = test_task_params.
Proof.
  unfold test_task_events.
  destruct (load_from_yaml E text test_task_params) as [?|[]];
    rewrite ?elem_of_cons, ?elem_of_nil; split;
    try (intros [H|H]; try done; destruct H as [H|H]; try done);
    try (by intros [? _]).
  - by injection H as -> -> ->.
  - intros (_ & -> & -> & ->). by right; left.
Qed.

(** C1: [test_task] first attempts [Task.load_from_yaml] with the fixed
    overrides name "action_test", shell "target", requires chroot and
    python, echo true.  It calls
    [Task.from_multiline_string("action_test", s, params)] with the same
    parameters if and only if that attempt raises the YAML error, and it
    then returns what that call returns; otherwise it ends the way the
    first attempt did. *)
Theorem test_task_falls_back_iff_yaml_error (E : Env) (text : string) (s : State) :
  test_task_params =
    [("name", PStr "action_test"); ("shell", PStr "target");
     ("requires", PList ["chroot"; "python"]); ("echo", PBool true)]
  ∧ head (events_of (test_task E text) s)
    = Some (LoadFromYaml text test_task_params)
  ∧ (FromMultilineString "action_test" text test_task_params
       ∈ events_of (test_task E text) s
     ↔ load_from_yaml E text test_task_params = Raise YAMLError)
  ∧ (∀ name t p,
       FromMultilineString name t p ∈ events_of (test_task E text) s →
       name = "action_test" ∧ t = text ∧ p = test_task_params)
  ∧ (load_from_yaml E text test_task_params = Raise YAMLError →
     outcome_of (test_task E text) s
     = from_multiline_string E "action_test" text test_task_params)
  ∧ (load_from_yaml E text test_task_params ≠ Raise YAMLError →
     outcome_of (test_task E text) s
     = load_from_yaml E text test_task_params).
Proof.
  destruct (test_task_run E text s) as (Hev & Hout & _).
  rewrite Hev, Hout. split; [done |]. split; [done |]. split; [| split].
  - rewrite fallback_in_test_task_events. tauto.
  - intros name t p H. apply fallback_in_test_task_events in H. tauto.
  - unfold test_task_outcome. split.
    + by intros ->.
    + intros Hne.
      by destruct (load_from_yaml E text test_task_params) as [?|[]].
Qed.

Lemma test_task_falls_back_iff_yaml_error_witness :
  FromMultilineString "action_test" "echo hi" test_task_params
    ∈ events_of (test_task (Sample.env []) "echo hi") initial_state.
Proof.
  destruct (test_task_falls_back_iff_yaml_error
              (Sample.env []) "echo hi" initial_state)
    as (_ & _ & [_ H] & _).
  apply H. reflexivity.
Defined.

(** The scenario of the spec: a two-line script that is not YAML becomes
    the task [action_test] on the target with two literal steps. *)
Example test_task_two_line_script :
  let text := "echo hi" +:+ String "010" "echo bye" in
  outcome_of (test_task (Sample.env []) text) initial_state
  = Ok {| task_name := "action_test"; task_shell := "target";
          task_requires := ["chroot"; "python"]; task_echo := true;
          task_body := ["echo hi"; "echo bye"]; task_enabled := true |}.
Proof. reflexivity. Qed.

(** With the task constructors as the spec describes them, the raw-string
    fallback is taken exactly for the texts the YAML parser rejects. *)
Lemma test_task_fallback_iff_not_yaml
    (yaml_load : string → option (Dict.t PyVal)) (defaults : Task)
    (E : Env) (text : string) (s : State) :
  FromMultilineString "action_test" text test_task_params
    ∈ events_of (test_task (with_Task_constructors yaml_load defaults E) text) s
  ↔ yaml_load text = None.
Proof.
  destruct (test_task_run (with_Task_constructors yaml_load defaults E) text s)
    as (-> & _).
  rewrite fallback_in_test_task_events.
  cbn [load_from_yaml with_Task_constructors]. unfold Task_load_from_yaml.
  destruct (yaml_load text); split; try done; by intros [? _].
Qed.

Lemma test_task_params_wf : Dict.wf test_task_params.
Proof. unfold Dict.wf. apply (bool_decide_unpack _). by vm_compute. Qed.

(** The overrides of [test_task] decide the declared fields of a task read
    from a YAML document. *)
Lemma overrides_take_precedence defaults (doc : Dict.t PyVal) :
  let t := task_of_fields defaults (doc |. test_task_params) in
  task_name t = "action_test" ∧ task_shell t = "target"
  ∧ task_requires t = ["chroot"; "python"] ∧ task_echo t = true.
Proof.
  unfold task_of_fields, get_str, get_list, get_bool, Dict.union.
  cbn [task_name task_shell task_requires task_echo].
  rewrite !Dict_get_update by apply test_task_params_wf. done.
Qed.

(** C7: with the task constructors as the spec describes them, [test_task]
    applied to the empty string returns a task named "action_test",
    whichever of the two paths builds it, and raises nothing. *)
Theorem test_task_empty_string
    (yaml_load : string → option (Dict.t PyVal)) (defaults : Task)
    (E : Env) (s : State) :
  ∃ t,
    outcome_of (test_task (with_Task_constructors yaml_load defaults E) "") s
    = Ok t
    ∧ task_name t = "action_test".
Proof.
  unfold outcome_of, test_task, try_except_YAMLError, log, lift.
  rewrite !bind_run.
  cbn [load_from_yaml from_multiline_string with_Task_constructors fst snd].
  unfold Task_load_from_yaml.
  destruct (yaml_load "") as [doc|].
  - eexists. split; [done |]. apply overrides_take_precedence.
  - eexists. split; [done |]. done.
Qed.

(** ** Staging a board *)

Section ConfigureBoard.

Context (E : Env).

Lemma configure_board_default_config ud arch board resc repl ar s :
  archs E !! arch = Some ar → resc ≠ "default" → repl ≠ "default" →
  let b := if decide (board = "default") then default_board ar else board in
  configure_board E ud "none" arch board resc repl s =
  (call E (GetFile resc ("action/device/" +:+ b +:+ "/init.resc") ud) >>
   call E (GetFile resc ("action/device/" +:+ b +:+ "/platform.repl") ud) >>
   ret (arch, b)) s.
Proof.
  intros Har Hresc Hrepl b. unfold configure_board.
  rewrite decide_False by (by intros ?).
  rewrite Har. rewrite bool_decide_eq_false_2 by done.
  rewrite (bool_decide_eq_false_2 (resc = "default")) by done.
  rewrite (bool_decide_eq_false_2 (repl = "default")) by done.
  rewrite (bool_decide_eq_true_2 (resc ≠ "default")) by done.
  rewrite (bool_decide_eq_true_2 (repl ≠ "default")) by done.
  unfold b, archs_getitem. rewrite Har.
  destruct (decide (board = "default"));
    unfold bind, ret, when; simpl; rewrite andb_false_r; done.
Qed.

End ConfigureBoard.

(** C2: with no custom config, a supported architecture and both [resc]
    and [repl] given, [configure_board] fetches [resc] twice: to the init
    script and to the platform description of the board.  No fetch has any
    other source, and the value of [repl] changes nothing. *)
Theorem configure_board_fetches_resc_twice
    (E : Env) (ud arch board resc repl : string) (ar : Arch) (s : State) :
  archs E !! arch = Some ar → resc ≠ "default" → repl ≠ "default" →
  let b := if decide (board = "default") then default_board ar else board in
  let init := GetFile resc ("action/device/" +:+ b +:+ "/init.resc") ud in
  let platform :=
    GetFile resc ("action/device/" +:+ b +:+ "/platform.repl") ud in
  let run := configure_board E ud "none" arch board resc repl in
  (raises E (trace s) init = None → events_of run s = [init; platform])
  ∧ (∀ source dest ctx,
       GetFile source dest ctx ∈ events_of run s → source = resc)
  ∧ (∀ repl', repl' ≠ "default" →
       configure_board E ud "none" arch board resc repl' s = run s).
Proof.
  intros Har Hresc Hrepl b init platform run.
  assert (events_of run s =
          init :: match raises E (trace s) init with
                  | None => [platform]
                  | Some _ => []
                  end) as Hev.
  { apply events_of_app. unfold run.
    rewrite (configure_board_default_config E ud arch board resc repl ar s)
      by done.
    fold b. fold init. fold platform. rewrite !bind_run, !call_run.
    destruct (raises E (trace s) init); simpl; [done |].
    rewrite bind_run, call_run.
    destruct (raises E (trace (record init s)) platform); simpl;
      by rewrite <- (assoc_L (++)). }
  split; [| split].
  - intros Hok. by rewrite Hev, Hok.
  - intros source dest ctx. rewrite Hev.
    destruct (raises E (trace s) init);
      rewrite ?elem_of_cons, ?elem_of_nil; unfold init, platform;
      intros H; repeat (destruct H as [H|H]); try done; congruence.
  - intros repl' Hrepl'. unfold run.
    rewrite !(configure_board_default_config E ud arch board resc _ ar s)
      by done.
    done.
Qed.

Lemma configure_board_fetches_resc_twice_witness :
  events_of
    (configure_board (Sample.env []) "/w" "none" "riscv64" "default"
       "my.resc" "my.repl") initial_state
  = [GetFile "my.resc" "action/device/hifive_unleashed/init.resc" "/w";
     GetFile "my.resc" "action/device/hifive_unleashed/platform.repl" "/w"].
Proof.
  apply (configure_board_fetches_resc_twice (Sample.env []) "/w" "riscv64"
           "default" "my.resc" "my.repl"
           {| default_board := "hifive_unleashed"; network_available := true |}
           initial_state);
    [reflexivity | discriminate | discriminate | reflexivity].
Defined.

(** ** The root file system image *)

Section Image.

Context (E : Env).

Lemma decoded_args_unique argv args args' :
  decoded_args E argv args → decoded_args E argv args' → args = args'.
Proof. intros (a & Ha & Hj) (a' & Ha' & Hj'). congruence. Qed.

(** Over a whole run the list [commands] is the initial one, or the
    initial one followed by the mount command when an image was asked
    for. *)
Lemma main_commands argv :
  commands (run_main E argv).1 = commands initial_state
  ∨ ∃ args,
      decoded_args E argv args
      ∧ Dict.get_default "image" "" args ≠ "none"
      ∧ commands (run_main E argv).1
        = commands initial_state ++ [mount_command].
Proof.
  unfold run_main, main. rewrite bind_run.
  pose proof (parse_arguments_commands E argv initial_state) as Hc0.
  destruct (parse_arguments E argv initial_state)
    as [s0 [[[[args ud] repo] ref]|x]] eqn:Hp; simpl in *; [| by left].
  apply parse_arguments_ok_inv in Hp as (Hdec & _ & ->).
  rewrite bind_run.
  pose proof (stage_commands E args ud repo ref initial_state) as Hc1.
  destruct (stage E args ud repo ref initial_state)
    as [s1 [[[arch board] opt]|x]] eqn:Hs; simpl in *.
  - rewrite bind_run.
    destruct (follows_dispatch E args arch board opt s1) as [Hc2 _].
    pose proof (collect_commands E ud) as Hc3.
    assert (commands
              (match dispatch E args arch board opt s1 with
               | (s', Ok _) => collect E ud s'
               | (s', Raise e) => (s', Raise e)
               end).1 = commands s1) as ->.
    { destruct (dispatch E args arch board opt s1) as [s2 [[]|x]];
        simpl in *; [| done]. by rewrite <- (Hc3 s2). }
    unfold mounts in Hc1. case_decide; [by left |].
    destruct Hc1 as [-> | ->]; [by left | right]. by exists args.
  - unfold mounts in Hc1. case_decide; [by left |].
    destruct Hc1 as [-> | ->]; [by left | right]. by exists args.
Qed.

End Image.

(** C10: [prepare_image] with the image "none" returns at once and
    changes nothing, so the list [commands] keeps its only entry, mkdir
    rootfs.  For any other image it burns the root file system image, and
    when that call returns it appends the mount command, once.  Over a
    whole run [commands] is the initial list, followed by the mount command
    only when the image asked for is not "none". *)
Theorem prepare_image_none_or_one_mount
    (E : Env) (repo ref ud arch size ty : string) :
  (∀ s, prepare_image E repo ref ud "none" arch size ty s = (s, Ok tt))
  ∧ commands initial_state = [["mkdir"; "rootfs"]]
  ∧ (∀ image s,
       image ≠ "none" →
       let burn :=
         BurnRootfsImage ud
           (if PyStr.strip_is_empty image
            then DEFAULT_IMAGE_PATH repo ref arch else image)
           arch size ty in
       events_of (prepare_image E repo ref ud image arch size ty) s = [burn]
       ∧ (raises E (trace s) burn = None →
          prepare_image E repo ref ud image arch size ty s
          = ({| trace := trace s ++ [burn];
                commands :=
                  commands s ++ [["sudo"; "mount"; "images/rootfs.img"; "rootfs"]] |},
             Ok tt)))
  ∧ (∀ argv args,
       decoded_args E argv args →
       Dict.get_default "image" "" args = "none" →
       commands (run_main E argv).1 = [["mkdir"; "rootfs"]])
  ∧ (∀ argv,
       commands (run_main E argv).1 = [["mkdir"; "rootfs"]]
       ∨ commands (run_main E argv).1
         = [["mkdir"; "rootfs"];
            ["sudo"; "mount"; "images/rootfs.img"; "rootfs"]]).
Proof.
  split; [done |]. split; [done |]. split; [| split].
  - intros image s Hne burn. unfold prepare_image.
    rewrite decide_False by done. fold burn.
    split.
    + apply events_of_app. rewrite bind_run, call_run.
      by destruct (raises E (trace s) burn).
    + intros Hok. rewrite bind_run, call_run, Hok. done.
  - intros argv args Hdec Himg.
    destruct (main_commands E argv) as [H | (args' & Hdec' & Hne & _)];
      [done |].
    by rewrite (decoded_args_unique E argv args args') in Himg.
  - intros argv.
    destruct (main_commands E argv) as [H | (args' & _ & _ & H)]; auto.
Qed.

Lemma prepare_image_none_or_one_mount_witness :
  prepare_image (Sample.env []) "org/repo" "v1" "/w" "rootfs.tar.xz"
    "riscv64" "auto" "native" initial_state
  = ({| trace :=
          [BurnRootfsImage "/w" "rootfs.tar.xz" "riscv64" "auto" "native"];
        commands :=
          [["mkdir"; "rootfs"];
           ["sudo"; "mount"; "images/rootfs.img"; "rootfs"]] |},
     Ok tt).
Proof.
  destruct (prepare_image_none_or_one_mount (Sample.env []) "org/repo" "v1"
              "/w" "riscv64" "auto" "native") as (_ & _ & H & _).
  apply (H "rootfs.tar.xz" initial_state); [discriminate | reflexivity].
Defined.

(** ** The calls to the dispatcher *)

Section DispatcherCalls.

Context (E : Env).

Lemma omap_quiet {B} (f : Event → option B) l :
  (∀ e, quiet e → f e = None) → Forall quiet l → omap f l = [].
Proof.
  intros Hf. induction 1 as [|e l He _ IH]; simpl; [done |].
  by rewrite (Hf e He).
Qed.

Lemma omap_fmap_None {A B} (f : Event → option B) (g : A → Event)
    (l : list A) :
  (∀ x, f (g x) = None) → omap f (g <$> l) = [].
Proof.
  intros H. induction l as [|x l IH]; csimpl; [done |]. by rewrite H.
Qed.

Lemma omap_fmap_Some {A B} (f : Event → option B) (g : A → Event) h
    (l : list A) :
  (∀ x, f (g x) = Some (h x)) → omap f (g <$> l) = h <$> l.
Proof.
  intros H. induction l as [|x l IH]; csimpl; [done |].
  rewrite H. by f_equal.
Qed.

Lemma omap_between {B} (f : Event → option B) pre mid post :
  (∀ e, quiet e → f e = None) → Forall quiet pre → Forall quiet post →
  omap f (pre ++ mid ++ post) = omap f mid.
Proof.
  intros Hf Hpre Hpost.
  rewrite !omap_app, (omap_quiet f pre), (omap_quiet f post) by done.
  by rewrite app_nil_r.
Qed.

Lemma network_events_denied args arch :
  network_denied E args arch →
  network_events E args arch = (fun n => EnableTask n false) <$> network_tasks.
Proof.
  unfold network_denied, network_events. intros [Hn | (a & Ha & Hav)].
  - by rewrite decide_True.
  - case_decide; [done |]. by rewrite Ha, Hav.
Qed.

Lemma network_events_allowed args arch :
  ¬ network_denied E args arch → network_events E args arch = [].
Proof.
  unfold network_denied, network_events. intros Hn.
  case_decide as Hnet; [by destruct Hn; left |].
  destruct (archs E !! arch) as [a|] eqn:Ha; [| done].
  destruct (network_available a) eqn:Hav; [done |].
  destruct Hn. right. by exists a.
Qed.

Lemma omap_no_enable {B} (f : Event → option B) l :
  (∀ e, (∀ n b, e ≠ EnableTask n b) → f e = None) →
  Forall (fun e => ∀ n b, e ≠ EnableTask n b) l → omap f l = [].
Proof.
  intros Hf. induction 1 as [|e l He _ IH]; simpl; [done |].
  by rewrite (Hf e He).
Qed.

(** The names switched off and on by the calls that construct the
    dispatcher and apply the activation rules. *)
Lemma disabled_names_activation now args arch board opt :
  disabled_names
    ([DispatcherInit board (template_variables now board) opt]
     ++ ((fun n => EnableTask n true) <$> Dict.keys opt)
     ++ network_events E args arch)
  = disabled_names (network_events E args arch).
Proof.
  unfold disabled_names. rewrite !omap_app.
  by rewrite (omap_fmap_None _ (fun n => EnableTask n true)).
Qed.

Lemma enabled_names_activation now args arch board opt :
  enabled_names
    ([DispatcherInit board (template_variables now board) opt]
     ++ ((fun n => EnableTask n true) <$> Dict.keys opt)
     ++ network_events E args arch)
  = Dict.keys opt.
Proof.
  unfold enabled_names. rewrite !omap_app.
  rewrite (omap_fmap_Some _ (fun n => EnableTask n true) id) by done.
  rewrite list_fmap_id.
  assert (omap (fun e => match e with EnableTask n true => Some n | _ => None end)
            (network_events E args arch) = []) as ->.
  { unfold network_events, network_tasks. by repeat case_match. }
  simpl. by rewrite app_nil_r.
Qed.

(** The ranks along the calls of [dispatch]. *)
Lemma ranks_dispatch_events now args arch board opt t :
  test_task_outcome E (Dict.get_default "renode-run" "" args) = Ok t →
  ∃ n, omap rank_test_task_last (dispatch_events E now args arch board opt)
       = 0 :: replicate n 1 ++ [2; 3].
Proof.
  intros Ht. unfold dispatch_events. rewrite Ht, !omap_app.
  assert (omap rank_test_task_last
            ((fun n => EnableTask n true) <$> Dict.keys opt)
          = replicate (length (Dict.keys opt)) 1) as ->.
  { rewrite (omap_fmap_Some _ _ (fun _ => 1)) by done. by apply const_fmap. }
  assert (∃ k, omap rank_test_task_last (network_events E args arch)
               = replicate k 1) as [k ->].
  { unfold network_events, network_tasks.
    repeat case_match; first [by exists 3 | by exists 0]. }
  assert (omap rank_test_task_last
            (test_task_events E (Dict.get_default "renode-run" "" args)) = [])
    as ->.
  { unfold test_task_events. by repeat case_match. }
  exists (length (Dict.keys opt) + k). simpl.
  by rewrite (assoc_L (++)), <- replicate_add.
Qed.

Lemma nondecreasing_ranks n : nondecreasing (0 :: replicate n 1 ++ [2; 3]) = true.
Proof.
  assert (∀ n, nondecreasing (replicate n 1 ++ [2; 3]) = true) as H.
  { clear n. intros n. induction n as [|n IH]; [done |].
    simpl in *. rewrite IH. by destruct n. }
  specialize (H n). simpl. rewrite H. by destruct n.
Qed.

(** The dispatcher is constructed by [dispatch] and nowhere else. *)
Lemma dispatch_events_init now args arch board opt evs b vars o :
  evs `prefix_of` dispatch_events E now args arch board opt →
  DispatcherInit b vars o ∈ evs →
  b = board ∧ vars = template_variables now board ∧ o = opt
  ∧ ∃ evs', evs = DispatcherInit b vars o :: evs'.
Proof.
  intros [k Hk] Hin.
  assert (DispatcherInit b vars o ∈ dispatch_events E now args arch board opt)
    as H.
  { rewrite Hk. apply elem_of_app. by left. }
  unfold dispatch_events in H, Hk. rewrite !elem_of_app in H.
  destruct H as [H | [H | [H | [H | H]]]].
  - apply list_elem_of_singleton in H. injection H as -> -> ->.
    repeat split; try done.
    destruct evs as [|e evs']; [by apply elem_of_nil in Hin |].
    simpl in Hk. injection Hk as <- _. by exists evs'.
  - by apply list_elem_of_fmap in H as (? & ? & ?).
  - pose proof (network_events_enable E args arch) as F.
    rewrite Forall_forall in F. by destruct (F _ H).
  - pose proof
      (test_task_events_constructor E (Dict.get_default "renode-run" "" args))
      as F.
    rewrite Forall_forall in F. by specialize (F _ H).
  - case_match; rewrite ?elem_of_cons, ?elem_of_nil in H;
      intuition discriminate.
Qed.

(** A run that constructs the dispatcher does it after quiet calls only,
    with the board that [configure_board] returned, the two template
    variables and the mapping of optional tasks. *)
Lemma main_dispatcher_init argv b vars o :
  DispatcherInit b vars o ∈ trace (run_main E argv).1 →
  ∃ args arch pre post,
    decoded_args E argv args
    ∧ board_configured E argv args arch b
    ∧ arch = Dict.get_default "arch" "riscv64" args
    ∧ trace (run_main E argv).1 = pre ++ DispatcherInit b vars o :: post
    ∧ Forall quiet pre
    ∧ vars = template_variables (datetime_now E pre) b
    ∧ o = optional_tasks_of E args arch.
Proof.
  intros Hin. destruct (main_run E argv) as [Hq | H].
  { by apply (quiet_not_dispatcher _ (DispatcherInit b vars o)) in Hq. }
  destruct H as (args & ud & repo & ref & s0 & arch & board & opt & s1 & evs
                 & post & Hp & Hs & Ht & Hpre & Fs1 & Fpost & _).
  apply parse_arguments_ok_inv in Hp as (Hdec & Hud & ->).
  pose proof Hs as Hs'. apply stage_ok_inv in Hs' as [[sx Hcb] ->].
  pose proof Hcb as Hcb'.
  apply configure_board_ok_inv in Hcb' as (-> & _).
  rewrite Ht in Hin. rewrite !elem_of_app in Hin.
  destruct Hin as [Hin | [Hin | Hin]];
    [by apply (quiet_not_dispatcher _ (DispatcherInit b vars o)) in Fs1 | |
     by apply (quiet_not_dispatcher _ (DispatcherInit b vars o)) in Fpost].
  destruct (dispatch_events_init _ _ _ _ _ _ _ _ _ Hpre Hin)
    as (-> & -> & -> & evs' & ->).
  exists args, (Dict.get_default "arch" "riscv64" args), (trace s1),
    (evs' ++ post).
  repeat split; try done.
  by exists ud, initial_state, sx.
Qed.

End DispatcherCalls.

Ltac elem_of_list :=
  vm_compute; repeat first [apply list_elem_of_here | apply list_elem_of_further].

(** ** The network tasks *)

(** C3: in a run that gets past the activation rules (to line 191, where
    the test task is built), when the "network" input is anything but
    "true", or the architecture's [network_available] is false, the tasks
    switched off with [enable_task(name, False)] are exactly host_network,
    renode_network and target_network; when the network is asked for and
    available, no task is switched off. *)
Theorem network_tasks_disabled_when_denied
    (E : Env) (argv : list string) (args : Dict.t string) :
  decoded_args E argv args →
  builds_test_task (trace (run_main E argv).1) →
  let arch := Dict.get_default "arch" "riscv64" args in
  (network_denied E args arch →
   disabled_names (trace (run_main E argv).1)
   = ["host_network"; "renode_network"; "target_network"])
  ∧ (¬ network_denied E args arch →
     disabled_names (trace (run_main E argv).1) = []).
Proof.
  intros Hdec Hin arch.
  destruct (main_past_activation E argv Hin)
    as (args' & arch' & board & pre & rest & Hdec' & _ & -> & -> & Fpre
        & Frest).
  rewrite <- (decoded_args_unique E argv args args') by done. fold arch.
  assert (disabled_names pre = []) as Hpre.
  { apply omap_quiet; [by intros [] | done]. }
  assert (disabled_names rest = []) as Hrest.
  { apply omap_no_enable; [| done]. intros [] H; try done.
    by destruct (H name enabled). }
  unfold disabled_names in *. rewrite omap_app, Hpre, omap_app, Hrest.
  rewrite app_nil_r.
  pose proof (disabled_names_activation E (datetime_now E pre) args arch
                board (optional_tasks_of E args arch)) as Hact.
  unfold disabled_names in Hact. rewrite app_nil_l, Hact.
  split; intros H.
  - by rewrite network_events_denied.
  - by rewrite network_events_allowed.
Qed.

Lemma network_tasks_disabled_when_denied_witness :
  disabled_names
    (trace (run_main (Sample.env [("network", "false")]) Sample.argv).1)
  = ["host_network"; "renode_network"; "target_network"].
Proof.
  apply (network_tasks_disabled_when_denied
           (Sample.env [("network", "false")]) Sample.argv
           [("network", "false")]).
  - by exists "{...}".
  - exists "", test_task_params. elem_of_list.
  - left. discriminate.
Defined.

(** ** The optional tasks *)

(** C4: the mapping of optional tasks is the union of the device tasks
    and the python-package tasks in which the later mapping wins: a name
    that the python packages declare holds their entry, also when the
    devices declare it too; any other name holds what the devices declare
    for it, or nothing; the names of the union are those of the two
    mappings.  The dispatcher of a run is constructed with this union. *)
Theorem optional_tasks_union_last_wins (E : Env) :
  (∀ devices python_packages : Dict.t (Dict.t string),
     Dict.wf python_packages →
     (∀ name v,
        Dict.get name python_packages = Some v →
        Dict.get name (devices |. python_packages) = Some v)
     ∧ (∀ name,
          Dict.get name python_packages = None →
          Dict.get name (devices |. python_packages) = Dict.get name devices)
     ∧ (∀ name,
          name ∈ Dict.keys (devices |. python_packages)
          ↔ name ∈ Dict.keys devices ∨ name ∈ Dict.keys python_packages))
  ∧ (∀ argv args board vars optional_tasks,
       decoded_args E argv args →
       DispatcherInit board vars optional_tasks ∈ trace (run_main E argv).1 →
       optional_tasks
       = add_devices E (Dict.get_default "devices" "" args)
         |. add_packages E (Dict.get_default "arch" "riscv64" args)
              (Dict.get_default "python-packages" "" args)).
Proof.
  split.
  - intros devices python_packages Hwf. unfold Dict.union.
    split; [| split].
    + intros name v Hv. by rewrite Dict_get_update, Hv.
    + intros name Hv. by rewrite Dict_get_update, Hv.
    + intros name. apply Dict_elem_of_keys_update.
  - intros argv args board vars opt Hdec Hin.
    destruct (main_dispatcher_init E argv _ _ _ Hin)
      as (args' & arch & pre & post & Hdec' & _ & -> & _ & _ & _ & ->).
    by rewrite <- (decoded_args_unique E argv args args').
Qed.

Lemma optional_tasks_union_last_wins_witness :
  Dict.get "vivid" ([("vivid", [("from", "devices")]); ("gpio", [])]
                    |. [("vivid", [("from", "python")])])
  = Some [("from", "python")].
Proof.
  destruct (optional_tasks_union_last_wins (Sample.env [])) as [H _].
  apply (H [("vivid", [("from", "devices")]); ("gpio", [])]
           [("vivid", [("from", "python")])]).
  - apply (bool_decide_unpack _). by vm_compute.
  - reflexivity.
Defined.

Lemma length_filter_NoDup (name : string) (l : list string) :
  NoDup l →
  length (filter (fun n => n = name) l) = if decide (name ∈ l) then 1 else 0.
Proof.
  induction 1 as [|x l Hx _ IH].
  - by rewrite decide_False by apply not_elem_of_nil.
  - rewrite filter_cons. destruct (decide (x = name)) as [->|Hne]; simpl.
    + rewrite decide_True by apply list_elem_of_here.
      rewrite IH. by rewrite decide_False.
    + rewrite IH. destruct (decide (name ∈ l)) as [Hin|Hin].
      * by rewrite decide_True by by apply list_elem_of_further.
      * rewrite decide_False; [done |]. rewrite not_elem_of_cons. done.
Qed.

(** C5: in a run that gets past the activation rules (to line 191, where
    the test task is built), once the dispatcher is constructed the script
    calls [enable_task(name, True)] for the names of the merged mapping of
    optional tasks, in their order and for nothing else: once for every
    name of the mapping, never for another name. *)
Theorem optional_tasks_enabled_once
    (E : Env) (argv : list string) (args : Dict.t string) :
  env_dicts_wf E →
  decoded_args E argv args →
  builds_test_task (trace (run_main E argv).1) →
  let optional_tasks :=
    add_devices E (Dict.get_default "devices" "" args)
    |. add_packages E (Dict.get_default "arch" "riscv64" args)
         (Dict.get_default "python-packages" "" args) in
  enabled_names (trace (run_main E argv).1) = Dict.keys optional_tasks
  ∧ (∀ name,
       times_enabled name (trace (run_main E argv).1)
       = if decide (name ∈ Dict.keys optional_tasks) then 1 else 0)
  ∧ ∃ pre board vars post,
      trace (run_main E argv).1
      = pre ++ [DispatcherInit board vars optional_tasks]
        ++ ((fun name => EnableTask name true) <$> Dict.keys optional_tasks)
        ++ post
      ∧ enabled_names pre = [] ∧ enabled_names post = [].
Proof.
  intros [Hwf _] Hdec Hin opt.
  destruct (main_past_activation E argv Hin)
    as (args' & arch' & board & pre & rest & Hdec' & _ & -> & Htr & Fpre
        & Frest).
  rewrite <- (decoded_args_unique E argv args args') in * by done.
  fold (optional_tasks_of E args (Dict.get_default "arch" "riscv64" args))
    in opt.
  fold opt in Htr.
  assert (enabled_names pre = []) as Hpre.
  { apply omap_quiet; [by intros [] | done]. }
  assert (enabled_names rest = []) as Hrest.
  { apply omap_no_enable; [| done]. intros [] H; try done.
    by destruct (H name enabled). }
  assert (enabled_names
            (network_events E args (Dict.get_default "arch" "riscv64" args))
          = []) as Hnet.
  { unfold network_events, network_tasks. by repeat case_match. }
  assert (enabled_names (trace (run_main E argv).1) = Dict.keys opt) as Hen.
  { rewrite Htr. unfold enabled_names in *.
    rewrite omap_app, Hpre, omap_app, Hrest, app_nil_r, app_nil_l.
    apply enabled_names_activation. }
  split; [done |]. split.
  - intros name. unfold times_enabled. rewrite Hen.
    apply length_filter_NoDup. unfold opt, optional_tasks_of, Dict.union.
    apply Dict_wf_update, Hwf.
  - exists pre, board, (template_variables (datetime_now E pre) board).
    exists (network_events E args (Dict.get_default "arch" "riscv64" args)
            ++ rest).
    split; [| split; [done |]].
    + rewrite Htr. by rewrite <- !(assoc_L (++)).
    + unfold enabled_names in *. by rewrite omap_app, Hnet, Hrest.
Qed.

Lemma optional_tasks_enabled_once_witness :
  enabled_names
    (trace (run_main (Sample.env [("devices", "vivid"); ("python-packages", "pyyaml")])
              Sample.argv).1)
  = ["device-vivid"; "python-packages"].
Proof.
  destruct (optional_tasks_enabled_once
              (Sample.env [("devices", "vivid"); ("python-packages", "pyyaml")])
              Sample.argv
              [("devices", "vivid"); ("python-packages", "pyyaml")])
    as [H _].
  - split.
    + intros spec. unfold Dict.wf, Dict.keys. simpl. unfold Sample.devices.
      rewrite <- list_fmap_compose.
      apply NoDup_fmap_2; [| apply NoDup_remove_dups].
      intros x y [= Hxy]. done.
    + intros arch spec. unfold Dict.wf. simpl. unfold Sample.packages.
      case_decide; [apply NoDup_nil_2 | apply NoDup_singleton].
  - by exists "{...}".
  - exists "", test_task_params. elem_of_list.
  - exact H.
Defined.

(** ** The order of the dispatcher calls *)

(** C6, as the claim states it, fails: with the network switched off the
    run disables the network tasks before it adds the test task, so the
    catalog is not complete when the activation rules are applied. *)
Lemma catalog_complete_before_activation_fails :
  Evaluate
    ∈ trace (run_main (Sample.env [("network", "false")]) Sample.argv).1
  ∧ ordered_by rank_catalog_first
      (trace (run_main (Sample.env [("network", "false")]) Sample.argv).1)
    = false.
Proof. split; [elem_of_list | by vm_compute]. Qed.

(** C6, amended: a run that gets to evaluate the catalog constructs the
    dispatcher (with the built-in and the optional tasks), then makes its
    [enable_task] calls, then adds the test task with [add_task], and only
    then calls [evaluate]; each of the three other calls is made once. *)
Theorem test_task_added_after_activation (E : Env) (argv : list string) :
  Evaluate ∈ trace (run_main E argv).1 →
  ordered_by rank_test_task_last (trace (run_main E argv).1) = true
  ∧ ∃ n,
      omap rank_test_task_last (trace (run_main E argv).1)
      = 0 :: replicate n 1 ++ [2; 3].
Proof.
  intros Hin.
  destruct (main_reaches_evaluate E argv Hin)
    as (args & arch & board & pre & post & t & _ & _ & _ & Ht & Htr & Fpre
        & Fpost).
  assert (∀ e, quiet e → rank_test_task_last e = None) as Hq.
  { by intros []. }
  destruct (ranks_dispatch_events E (datetime_now E pre) args arch board
              (optional_tasks_of E args arch) t Ht) as [n Hn].
  assert (omap rank_test_task_last (trace (run_main E argv).1)
          = 0 :: replicate n 1 ++ [2; 3]) as Hr.
  { by rewrite Htr, (omap_between _ _ _ _ Hq Fpre Fpost). }
  split; [| by exists n].
  unfold ordered_by. rewrite Hr. apply nondecreasing_ranks.
Qed.

Lemma test_task_added_after_activation_witness :
  ordered_by rank_test_task_last
    (trace (run_main (Sample.env [("network", "false")]) Sample.argv).1)
  = true.
Proof.
  apply (test_task_added_after_activation
           (Sample.env [("network", "false")]) Sample.argv).
  elem_of_list.
Defined.

(** ** The template variables *)

(** C8, as the claim states it, fails: NOW is not the time stamp of the
    start of the run.  The clock is read on line 180, after the staging
    calls of lines 144-177.  With a clock that moves on by a second with
    every call, the run starts at 09:30:00, makes six staging calls and
    hands 09:30:06 to the dispatcher. *)
Lemma now_is_run_start_timestamp_fails :
  DispatcherInit "hifive_unleashed"
    [("NOW", "2023-04-07 09:30:06"); ("BOARD", "hifive_unleashed")] []
    ∈ trace (run_main (Sample.env []) Sample.argv).1
  ∧ run_start_timestamp (Sample.env []) = "2023-04-07 09:30:00"
  ∧ Dict.get "NOW"
      [("NOW", "2023-04-07 09:30:06"); ("BOARD", "hifive_unleashed")]
    ≠ Some (run_start_timestamp (Sample.env [])).
Proof.
  split; [elem_of_list |]. split; [reflexivity |].
  intros H. vm_compute in H. discriminate H.
Qed.

(** C8, amended: the dispatcher is constructed with a mapping of template
    variables whose keys are NOW and BOARD and no other.  NOW holds the
    time the clock shows when the dispatcher is constructed (line 180),
    which is after the staging calls of lines 144-177 and before any other
    call to the dispatcher, in the format "%Y-%m-%d %H:%M:%S"; BOARD holds
    the board that [configure_board] returned. *)
Theorem dispatcher_template_variables
    (E : Env) (argv : list string) (board : string) (vars : Dict.t string)
    (optional_tasks : Dict.t (Dict.t string)) :
  DispatcherInit board vars optional_tasks ∈ trace (run_main E argv).1 →
  Dict.keys vars = ["NOW"; "BOARD"]
  ∧ (∃ pre post,
       trace (run_main E argv).1
       = pre ++ DispatcherInit board vars optional_tasks :: post
       ∧ Forall quiet pre
       ∧ Dict.get "NOW" vars = Some (strftime (datetime_now E pre)))
  ∧ Dict.get "BOARD" vars = Some board
  ∧ ∃ args arch,
      decoded_args E argv args ∧ board_configured E argv args arch board.
Proof.
  intros Hin.
  destruct (main_dispatcher_init E argv _ _ _ Hin)
    as (args & arch & pre & post & Hdec & Hcb & _ & Htr & Fpre & -> & _).
  split; [done |]. split; [by exists pre, post |]. split; [done |].
  by exists args, arch.
Qed.

Lemma dispatcher_template_variables_witness :
  Dict.keys [("NOW", "2023-04-07 09:30:06"); ("BOARD", "hifive_unleashed")]
  = ["NOW"; "BOARD"].
Proof.
  apply (dispatcher_template_variables (Sample.env []) Sample.argv
           "hifive_unleashed"
           [("NOW", "2023-04-07 09:30:06"); ("BOARD", "hifive_unleashed")]
           []).
  elem_of_list.
Defined.

Example strftime_sample :
  strftime {| year := 2023; month := 4; day := 7;
              hour := 9; minute := 30; second := 5 |}
  = "2023-04-07 09:30:05".
Proof. reflexivity. Qed.

(** ** Runs in which no collaborator raises *)

Section Returns.

Context (E : Env) (quiet_env : never_raises E).

Lemma returns_ret {A} (a : A) : returns (ret a) (fun x => x = a).
Proof. intros s. by exists s, a. Qed.

Lemma returns_call e : returns (call E e) (fun _ => True).
Proof.
  intros s. exists (record e s), tt. by rewrite call_run, quiet_env.
Qed.

Lemma returns_bind {A B} (m : M A) (k : A → M B) Q1 Q2 :
  returns m Q1 → (∀ a, Q1 a → returns (k a) Q2) → returns (bind m k) Q2.
Proof.
  intros Hm Hk s. destruct (Hm s) as (s1 & a & H1 & Ha).
  rewrite (bind_ok _ _ _ _ _ H1). by apply Hk.
Qed.

Lemma returns_weaken {A} (m : M A) (Q Q' : A → Prop) :
  returns m Q → (∀ a, Q a → Q' a) → returns m Q'.
Proof.
  intros Hm HQ s. destruct (Hm s) as (s1 & a & H1 & Ha).
  exists s1, a. auto.
Qed.

Lemma returns_for_each {A} (l : list A) body :
  (∀ x, returns (body x) (fun _ => True)) →
  returns (for_each l body) (fun _ => True).
Proof.
  intros H. induction l as [|x l IH]; simpl.
  - eapply returns_weaken; [apply returns_ret | done].
  - eapply returns_bind; [apply H | intros _ _; apply IH].
Qed.

Lemma returns_prepare_image repo ref ud image arch size ty :
  returns (prepare_image E repo ref ud image arch size ty) (fun _ => True).
Proof.
  unfold prepare_image. case_decide.
  - eapply returns_weaken; [apply returns_ret | done].
  - eapply returns_bind; [apply returns_call | intros _ _].
    intros s. by eexists _, tt.
Qed.

Lemma returns_configure_board_custom ud cc arch board resc repl :
  cc ≠ "none" →
  returns (configure_board E ud cc arch board resc repl)
    (fun r => r = (arch, "custom")).
Proof.
  intros Hcc. unfold configure_board. rewrite decide_True by done.
  eapply returns_bind; [apply returns_call | intros _ _; apply returns_ret].
Qed.

Lemma returns_parse_arguments argv args :
  length argv = 5 → decoded_args E argv args →
  returns (parse_arguments E argv)
    (fun r => ∃ ud repo ref, r = (args, ud, repo, ref)).
Proof.
  intros Hlen (a & Ha & Hj). unfold parse_arguments.
  rewrite bool_decide_eq_false_2 by (by intros ?).
  destruct argv as [|a0 [|a1 [|a2 [|a3 [|a4 [|]]]]]]; try done.
  simpl in Ha. injection Ha as ->.
  intros s. unfold argv_getitem, when, bind, ret. simpl.
  rewrite Hj. simpl. eauto 10.
Qed.

Lemma returns_stage_custom args ud repo ref :
  Dict.get_default "custom-config" "none" args ≠ "none" →
  PyStr.strip_is_empty (Dict.get_default "kernel" "" args) = false →
  returns (stage E args ud repo ref)
    (fun r => ∃ opt,
       r = (Dict.get_default "arch" "riscv64" args, "custom", opt)).
Proof.
  intros Hcc Hk. unfold stage.
  eapply returns_bind; [by apply returns_configure_board_custom |].
  intros ? ->. rewrite Hk. simpl.
  eapply returns_bind; [apply returns_ret | intros ? ->].
  do 5 (eapply returns_bind; [apply returns_call | intros _ _]).
  eapply returns_bind; [apply returns_prepare_image | intros _ _].
  eapply returns_bind.
  { apply returns_for_each. intros [it task]. apply returns_call. }
  intros _ _. eapply returns_weaken; [apply returns_ret |].
  intros ? ->. eauto.
Qed.

(** With the network left on and an architecture outside the table, the
    dispatcher is built, the optional tasks are switched on and the lookup
    [archs[arch]] of line 187 raises. *)
Lemma dispatch_key_error args arch board opt s :
  archs E !! arch = None →
  Dict.get_default "network" "true" args = "true" →
  ∃ s',
    dispatch E args arch board opt s = (s', Raise (KeyError arch))
    ∧ trace s'
      = trace s
        ++ DispatcherInit board
             (template_variables (datetime_now E (trace s)) board) opt
           :: ((fun n => EnableTask n true) <$> Dict.keys opt)
    ∧ commands s' = commands s.
Proof.
  intros Harch Hnet. unfold dispatch.
  rewrite bind_run. cbn [get_trace]. rewrite bind_run, call_run, quiet_env.
  set (s1 := record _ s).
  destruct (returns_for_each (Dict.keys opt)
              (fun task => call E (EnableTask task true))
              (fun x => returns_call _) s1) as (s2 & [] & H2 & _).
  rewrite (bind_ok _ _ _ _ _ H2).
  destruct (follows_for_each_call E (Dict.keys opt)
              (fun n => EnableTask n true) s1) as [Hc Ht].
  rewrite H2 in Hc, Ht. simpl in Hc, Ht. destruct Ht as [Ht _].
  exists s2. split; [| split].
  - unfold disable_network. rewrite decide_False by (by intros ?).
    unfold archs_getitem. rewrite Harch. by rewrite !bind_run.
  - rewrite Ht. unfold s1. simpl. by rewrite <- (assoc_L (++)).
  - by rewrite Hc.
Qed.

End Returns.

(** ** A custom configuration and the architecture table *)

(** The lookup [archs[arch]] of line 187 is the right operand of [or]: when
    the user opts out of the network it is not evaluated, whatever the
    architecture. *)
Lemma disable_network_without_lookup (E : Env) args arch s :
  never_raises E →
  Dict.get_default "network" "true" args ≠ "true" →
  disable_network E args arch s
  = ({| trace := trace s ++ ((fun n => EnableTask n false) <$> network_tasks);
        commands := commands s |}, Ok tt).
Proof.
  intros Hq Hnet. unfold disable_network. rewrite decide_True by done.
  unfold when, for_each. unfold bind, ret, call, record. simpl.
  repeat (rewrite Hq; simpl).
  by rewrite <- !(assoc_L (++)).
Qed.

(** C9: with a custom config, [configure_board] fetches it and returns
    [(arch, "custom")] for any [arch], in the table of architectures or
    not: its only call is that fetch.  The lookup [archs[arch]] of line
    187 raises [KeyError] for every [arch] outside the table, nothing guards
    it, and so does the step that holds it whenever the network is asked
    for; a run with a custom config, a kernel, the network left on and such
    an [arch] ends in that [KeyError], before anything is evaluated, when no
    collaborator raises. *)
Theorem custom_config_skips_arch_validation (E : Env) :
  (∀ ud cc arch board resc repl s,
     cc ≠ "none" →
     events_of (configure_board E ud cc arch board resc repl) s
     = [GetFile cc "action/device/custom" ud]
     ∧ (raises E (trace s) (GetFile cc "action/device/custom" ud) = None →
        outcome_of (configure_board E ud cc arch board resc repl) s
        = Ok (arch, "custom")))
  ∧ (∀ arch s,
       archs E !! arch = None →
       archs_getitem E arch s = (s, Raise (KeyError arch)))
  ∧ (∀ args arch s,
       archs E !! arch = None →
       Dict.get_default "network" "true" args = "true" →
       disable_network E args arch s = (s, Raise (KeyError arch)))
  ∧ (∀ argv args,
       never_raises E →
       length argv = 5 →
       decoded_args E argv args →
       Dict.get_default "custom-config" "none" args ≠ "none" →
       PyStr.strip_is_empty (Dict.get_default "kernel" "" args) = false →
       Dict.get_default "network" "true" args = "true" →
       archs E !! Dict.get_default "arch" "riscv64" args = None →
       (run_main E argv).2
       = Raise (KeyError (Dict.get_default "arch" "riscv64" args))
       ∧ Evaluate ∉ trace (run_main E argv).1).
Proof.
  split; [| split; [| split]].
  - intros ud cc arch board resc repl s Hcc. unfold configure_board.
    rewrite decide_True by done. split.
    + apply events_of_app. rewrite bind_run, call_run.
      by destruct (raises E (trace s) _).
    + intros Hok. unfold outcome_of. by rewrite bind_run, call_run, Hok.
  - intros arch s Harch. unfold archs_getitem. by rewrite Harch.
  - intros args arch s Harch Hnet. unfold disable_network.
    rewrite decide_False by (by intros ?).
    unfold archs_getitem. rewrite Harch. by rewrite !bind_run.
  - intros argv args Hq Hlen Hdec Hcc Hk Hnet Harch.
    unfold run_main, main.
    destruct (returns_parse_arguments E argv args Hlen Hdec initial_state)
      as (s0 & r0 & Hp & ud & repo & ref & ->).
    rewrite (bind_ok _ _ _ _ _ Hp).
    destruct (returns_stage_custom E Hq args ud repo ref Hcc Hk s0)
      as (s1 & r1 & Hs & opt & ->).
    rewrite (bind_ok _ _ _ _ _ Hs).
    destruct (dispatch_key_error E Hq args _ "custom" opt s1 Harch Hnet)
      as (s2 & Hd & Ht & _).
    rewrite (bind_raise _ _ _ _ _ Hd). simpl. split; [done |].
    rewrite Ht.
    destruct (parse_arguments_emits E argv initial_state) as (e0 & H0 & F0).
    destruct (stage_emits E args ud repo ref s0) as (e1 & H1 & F1).
    rewrite Hp in H0. rewrite Hs in H1. simpl in H0, H1.
    rewrite H1, H0. simpl.
    rewrite !not_elem_of_app, not_elem_of_cons. repeat split.
    + by apply quiet_not_dispatcher.
    + by apply quiet_not_dispatcher.
    + done.
    + by intros (? & ? & ?)%list_elem_of_fmap.
Qed.

Lemma custom_config_skips_arch_validation_witness :
  (run_main
     (Sample.env [("custom-config", "board.yml"); ("arch", "sparc");
                  ("kernel", "kernel.tar.xz")]) Sample.argv).2
  = Raise (KeyError "sparc").
Proof.
  destruct (custom_config_skips_arch_validation
              (Sample.env [("custom-config", "board.yml"); ("arch", "sparc");
                           ("kernel", "kernel.tar.xz")]))
    as (_ & _ & _ & H).
  apply (H Sample.argv
           [("custom-config", "board.yml"); ("arch", "sparc");
            ("kernel", "kernel.tar.xz")]).
  - by intros ? ?.
  - reflexivity.
  - by exists "{...}".
  - discriminate.
  - reflexivity.
  - reflexivity.
  - reflexivity.
Defined.

(** * Further properties of the script *)

(** ** The command line *)

(** X1: a run started with a number of arguments other than five reports
    "Wrong number of arguments" and exits with status 1; it makes no other
    call and leaves [commands] alone. *)
Theorem wrong_number_of_arguments (E : Env) (argv : list string) :
  length argv ≠ 5 →
  run_main E argv
  = ({| trace := [Error "Wrong number of arguments"];
        commands := [["mkdir"; "rootfs"]] |},
     Raise (SystemExit 1)).
Proof.
  intros Hlen. unfold run_main, main, parse_arguments.
  by rewrite bool_decide_eq_true_2.
Qed.

Lemma wrong_number_of_arguments_witness :
  (run_main (Sample.env []) ["run-in-renode.py"; "{}"]).2
  = Raise (SystemExit 1).
Proof.
  by rewrite (wrong_number_of_arguments (Sample.env [])
                ["run-in-renode.py"; "{}"]).
Defined.

(** X2: when the second command-line argument is not JSON, the run reports
    "JSON decoder error for string: " followed by that argument and exits
    with status 1 without any other call. *)
Theorem json_decode_error_exits (E : Env) (argv : list string) (a : string) :
  length argv = 5 →
  argv !! 1 = Some a →
  json_loads E a = None →
  run_main E argv
  = ({| trace := [Error ("JSON decoder error for string: " +:+ a)];
        commands := [["mkdir"; "rootfs"]] |},
     Raise (SystemExit 1)).
Proof.
  intros Hlen Ha Hj. unfold run_main, main, parse_arguments.
  rewrite bool_decide_eq_false_2 by (by intros ?).
  destruct argv as [|a0 [|a1 [|a2 [|a3 [|a4 [|]]]]]]; try done.
  simpl in Ha. injection Ha as ->.
  unfold argv_getitem, bind, ret, when. simpl. by rewrite Hj.
Qed.

Lemma json_decode_error_exits_witness :
  (run_main (with_json_loads (fun _ => None) (Sample.env [])) Sample.argv).1
  = {| trace := [Error "JSON decoder error for string: {...}"];
       commands := [["mkdir"; "rootfs"]] |}.
Proof.
  by rewrite (json_decode_error_exits
                (with_json_loads (fun _ => None) (Sample.env []))
                Sample.argv "{...}").
Defined.

(** X3: when the second command-line argument is the JSON value null, the
    run exits with status 1 silently: no call is made, not even to
    [error]. *)
Theorem json_null_exits_silently (E : Env) (argv : list string) (a : string) :
  length argv = 5 →
  argv !! 1 = Some a →
  json_loads E a = Some None →
  run_main E argv = (initial_state, Raise (SystemExit 1)).
Proof.
  intros Hlen Ha Hj. unfold run_main, main, parse_arguments.
  rewrite bool_decide_eq_false_2 by (by intros ?).
  destruct argv as [|a0 [|a1 [|a2 [|a3 [|a4 [|]]]]]]; try done.
  simpl in Ha. injection Ha as ->.
  unfold argv_getitem, bind, ret, when. simpl. by rewrite Hj.
Qed.

Lemma json_null_exits_silently_witness :
  run_main (with_json_loads (fun _ => Some None) (Sample.env [])) Sample.argv
  = (initial_state, Raise (SystemExit 1)).
Proof.
  by apply (json_null_exits_silently
              (with_json_loads (fun _ => Some None) (Sample.env []))
              Sample.argv "{...}").
Defined.

(** ** Configuring the board *)

Section BoardConfiguration.

Context (E : Env).

(** Without a custom config and for an architecture of the table,
    [configure_board] is the check of the custom board followed by the two
    conditional fetches. *)
Lemma configure_board_supported ud arch board resc repl ar s :
  archs E !! arch = Some ar →
  let b := resolved_board ar board in
  configure_board E ud "none" arch board resc repl s =
  (when (bool_decide (b = "custom")
         && (bool_decide (resc = "default") || bool_decide (repl = "default")))
     (error "You have to provide resc and repl for custom board") >>
   when (bool_decide (resc ≠ "default"))
     (call E (GetFile resc ("action/device/" +:+ b +:+ "/init.resc") ud)) >>
   when (bool_decide (repl ≠ "default"))
     (call E (GetFile resc ("action/device/" +:+ b +:+ "/platform.repl") ud)) >>
   ret (arch, b)) s.
Proof.
  intros Har b. unfold configure_board.
  rewrite decide_False by (by intros ?).
  rewrite Har. rewrite bool_decide_eq_false_2 by done.
  unfold b, resolved_board, archs_getitem. rewrite Har.
  destruct (decide (board = "default")); reflexivity.
Qed.

Lemma configure_board_unsupported ud arch board resc repl s :
  archs E !! arch = None →
  configure_board E ud "none" arch board resc repl s
  = (record (Error "Architecture not supportted!") s, Raise (SystemExit 1)).
Proof.
  intros Har. unfold configure_board.
  rewrite decide_False by (by intros ?).
  by rewrite bool_decide_eq_true_2.
Qed.

Lemma call_ok_inv e s s' u :
  call E e s = (s', Ok u) → s' = record e s ∧ raises E (trace s) e = None.
Proof.
  rewrite call_run. destruct (raises E (trace s) e); intros H; by simplify_eq.
Qed.

End BoardConfiguration.

(** X4: without a custom config, an architecture that is not in the table
    of architectures makes [configure_board] report "Architecture not
    supportted!" and exit with status 1, whatever the board, [resc] and
    [repl]; nothing is fetched. *)
Theorem unsupported_architecture_exits
    (E : Env) (ud arch board resc repl : string) (s : State) :
  archs E !! arch = None →
  configure_board E ud "none" arch board resc repl s
  = ({| trace := trace s ++ [Error "Architecture not supportted!"];
        commands := commands s |},
     Raise (SystemExit 1)).
Proof.
  intros Har. by rewrite configure_board_unsupported.
Qed.

Lemma unsupported_architecture_exits_witness :
  configure_board (Sample.env []) "/w" "none" "sparc" "default" "a.resc"
    "a.repl" initial_state
  = ({| trace := [Error "Architecture not supportted!"];
        commands := [["mkdir"; "rootfs"]] |},
     Raise (SystemExit 1)).
Proof.
  by apply (unsupported_architecture_exits (Sample.env []) "/w" "sparc"
              "default" "a.resc" "a.repl" initial_state).
Defined.

(** X5: without a custom config, when the board settled on is "custom"
    (asked for, or the default board of the architecture) and [resc] or
    [repl] is left at "default", [configure_board] reports that both must be
    provided and exits with status 1 before any fetch. *)
Theorem custom_board_needs_resc_and_repl
    (E : Env) (ud arch board resc repl : string) (ar : Arch) (s : State) :
  archs E !! arch = Some ar →
  resolved_board ar board = "custom" →
  resc = "default" ∨ repl = "default" →
  configure_board E ud "none" arch board resc repl s
  = ({| trace :=
          trace s ++ [Error "You have to provide resc and repl for custom board"];
        commands := commands s |},
     Raise (SystemExit 1)).
Proof.
  intros Har Hb Hd.
  rewrite (configure_board_supported E ud arch board resc repl ar s Har).
  rewrite Hb. rewrite (bool_decide_eq_true_2 ("custom" = "custom")) by done.
  assert (bool_decide (resc = "default") || bool_decide (repl = "default")
          = true) as ->.
  { apply orb_true_iff.
    destruct Hd; [left | right]; by apply bool_decide_eq_true_2. }
  reflexivity.
Qed.

Lemma custom_board_needs_resc_and_repl_witness :
  (configure_board (Sample.env []) "/w" "none" "riscv64" "custom" "my.resc"
     "default" initial_state).2
  = Raise (SystemExit 1).
Proof.
  rewrite (custom_board_needs_resc_and_repl (Sample.env []) "/w" "riscv64"
             "custom" "my.resc" "default"
             {| default_board := "hifive_unleashed";
                network_available := true |} initial_state);
    [reflexivity | reflexivity | reflexivity | by right].
Defined.

(** X6: when [configure_board] returns without a custom config, the
    architecture it returns is the one it was given and is in the table,
    the board is the one asked for or, for "default", the default board of
    the architecture, and the calls it made are the fetch of [resc] to
    init.resc when [resc] is given followed by the fetch, again of [resc],
    to platform.repl when [repl] is given; [commands] is untouched. *)
Theorem configure_board_returns
    (E : Env) (ud arch board resc repl : string) (s s' : State)
    (a b : string) :
  configure_board E ud "none" arch board resc repl s = (s', Ok (a, b)) →
  ∃ ar,
    archs E !! arch = Some ar
    ∧ a = arch
    ∧ b = resolved_board ar board
    ∧ ¬ (b = "custom" ∧ (resc = "default" ∨ repl = "default"))
    ∧ trace s' = trace s ++ board_fetches ud b resc repl
    ∧ commands s' = commands s.
Proof.
  intros H.
  destruct (archs E !! arch) as [ar|] eqn:Har.
  2: { by rewrite configure_board_unsupported in H. }
  exists ar. split; [done |].
  rewrite (configure_board_supported E ud arch board resc repl ar s Har) in H.
  set (bb := resolved_board ar board) in *.
  bind_inv H as s1 u1 H1. apply when_error_ok_inv in H1 as [Hchk ->].
  bind_inv H as s2 u2 H2. bind_inv H as s3 u3 H3.
  injection H as <- <- <-.
  split; [done |]. split; [done |]. split.
  { intros [Hb Hd]. rewrite (bool_decide_eq_true_2 _ Hb) in Hchk.
    destruct Hd as [Hd | Hd]; rewrite (bool_decide_eq_true_2 _ Hd) in Hchk;
      [done | by rewrite orb_true_r in Hchk]. }
  unfold board_fetches.
  destruct (decide (resc ≠ "default")) as [Hr | Hr].
  - rewrite (bool_decide_eq_true_2 _ Hr) in H2. simpl in H2.
    apply call_ok_inv in H2 as [-> _].
    destruct (decide (repl ≠ "default")) as [Hp | Hp].
    + rewrite (bool_decide_eq_true_2 _ Hp) in H3. simpl in H3.
      apply call_ok_inv in H3 as [-> _]. simpl.
      by rewrite <- (assoc_L (++)).
    + rewrite (bool_decide_eq_false_2 _ Hp) in H3. simpl in H3.
      injection H3 as <-. simpl. by rewrite ?app_nil_r.
  - rewrite (bool_decide_eq_false_2 _ Hr) in H2. simpl in H2.
    injection H2 as <-.
    destruct (decide (repl ≠ "default")) as [Hp | Hp].
    + rewrite (bool_decide_eq_true_2 _ Hp) in H3. simpl in H3.
      by apply call_ok_inv in H3 as [-> _].
    + rewrite (bool_decide_eq_false_2 _ Hp) in H3. simpl in H3.
      injection H3 as <-. simpl. by rewrite ?app_nil_r.
Qed.

Lemma configure_board_returns_witness :
  ∃ ar,
    archs (Sample.env []) !! "arm32" = Some ar
    ∧ "arm32" = "arm32"
    ∧ "zynq_7000" = resolved_board ar "default"
    ∧ ¬ ("zynq_7000" = "custom" ∧ ("default" = "default" ∨ "default" = "default"))
    ∧ trace initial_state
      = trace initial_state ++ board_fetches "/w" "zynq_7000" "default" "default"
    ∧ commands initial_state = commands initial_state.
Proof.
  apply (configure_board_returns (Sample.env []) "/w" "arm32" "default"
           "default" "default" initial_state initial_state).
  reflexivity.
Defined.

(** X7: without a custom config, when only [repl] is given ([resc] left at
    "default") and the board is not "custom", [configure_board] makes one
    fetch, to platform.repl, and its source is the string "default": the
    value of [resc], not that of [repl]. *)
Theorem repl_alone_fetches_default
    (E : Env) (ud arch board repl : string) (ar : Arch) (s : State) :
  archs E !! arch = Some ar →
  repl ≠ "default" →
  resolved_board ar board ≠ "custom" →
  let b := resolved_board ar board in
  let fetch :=
    GetFile "default" ("action/device/" +:+ b +:+ "/platform.repl") ud in
  events_of (configure_board E ud "none" arch board "default" repl) s = [fetch]
  ∧ (raises E (trace s) fetch = None →
     outcome_of (configure_board E ud "none" arch board "default" repl) s
     = Ok (arch, b)).
Proof.
  intros Har Hrepl Hb b fetch.
  assert (configure_board E ud "none" arch board "default" repl s
          = (call E fetch >> ret (arch, b)) s) as Heq.
  { rewrite (configure_board_supported E ud arch board "default" repl ar s Har).
    fold b. rewrite (bool_decide_eq_false_2 (b = "custom")) by done.
    rewrite (bool_decide_eq_false_2 ("default" ≠ "default")) by (by intros ?).
    rewrite (bool_decide_eq_true_2 (repl ≠ "default")) by done.
    reflexivity. }
  unfold outcome_of. split.
  - apply events_of_app. rewrite Heq, bind_run, call_run.
    by destruct (raises E (trace s) fetch).
  - intros Hok. by rewrite Heq, bind_run, call_run, Hok.
Qed.

Lemma repl_alone_fetches_default_witness :
  events_of
    (configure_board (Sample.env []) "/w" "none" "riscv64" "default" "default"
       "my.repl") initial_state
  = [GetFile "default" "action/device/hifive_unleashed/platform.repl" "/w"].
Proof.
  apply (repl_alone_fetches_default (Sample.env []) "/w" "riscv64" "default"
           "my.repl"
           {| default_board := "hifive_unleashed"; network_available := true |}
           initial_state);
    [reflexivity | discriminate | discriminate].
Defined.

(** ** Staging *)

Section Staging.

Context (E : Env).

Lemma for_each_call_ok_inv {A} (l : list A) (f : A → Event) s s' u :
  for_each l (fun x => call E (f x)) s = (s', Ok u) →
  trace s' = trace s ++ (f <$> l) ∧ commands s' = commands s.
Proof.
  intros H. destruct (follows_for_each_call E l f s) as [Hc Ht].
  rewrite H in Hc, Ht. simpl in Hc, Ht. by destruct Ht.
Qed.

Lemma for_each_task_fetch ud (l : list (nat * string)) :
  for_each l
    (fun '(it, custom_task) =>
       call E (GetFile custom_task
                 ("action/user_tasks/task" +:+ PyStr.of_nat it +:+ ".yml") ud))
  = for_each l (fun x => call E (task_fetch ud x)).
Proof.
  induction l as [|[it t] l IH]; simpl; [done | by rewrite IH].
Qed.

Lemma prepare_image_ok_inv repo ref ud image arch size ty s s' u :
  prepare_image E repo ref ud image arch size ty s = (s', Ok u) →
  trace s'
  = trace s
    ++ (if decide (image = "none") then []
        else [BurnRootfsImage ud (image_argument repo ref arch image) arch
                size ty])
  ∧ commands s'
    = commands s ++ (if decide (image = "none") then [] else [mount_command]).
Proof.
  unfold prepare_image, image_argument.
  destruct (decide (image = "none")).
  - intros [= <-]. by rewrite !app_nil_r.
  - intros H. bind_inv H as s1 u1 H1. apply call_ok_inv in H1 as [-> _].
    by injection H as <-.
Qed.

(** The choice of the kernel (lines 153-157). *)
Lemma kernel_choice_ok_inv repo ref arch board kernel s s' k :
  (if PyStr.strip_is_empty kernel && bool_decide (board = "custom") then
     error "You have to provide custom kernel for custom board." >>
     ret kernel
   else if PyStr.strip_is_empty kernel then
     ret (DEFAULT_KERNEL_PATH repo ref arch board)
   else ret kernel) s = (s', Ok k) →
  ¬ (PyStr.strip_is_empty kernel = true ∧ board = "custom")
  ∧ s' = s ∧ k = kernel_argument repo ref arch board kernel.
Proof.
  unfold kernel_argument.
  destruct (PyStr.strip_is_empty kernel) eqn:Hb; simpl.
  - destruct (bool_decide (board = "custom")) eqn:Hcu; simpl.
    + intros H. bind_inv H as sx ux Hx. bind_inv Hx as sy uy Hy. discriminate.
    + intros [= <- <-]. apply bool_decide_eq_false in Hcu.
      split; [by intros [_ ?] | done].
  - intros [= <- <-]. split; [by intros [? _] | done].
Qed.

End Staging.

(** X8: when staging (lines 144-177) returns, [configure_board] returned
    the architecture and board, a kernel was given or the board is not
    "custom", and after the calls of [configure_board] came, in this order:
    the kernel preparation (with the given kernel, or the default kernel
    path of the architecture and board for a blank one), the shared
    directories, the devices, the python packages, the repositories, the
    image burn unless the image is "none", and one fetch per line of the
    "tasks" input to task0.yml, task1.yml and so on.  [commands] gained the
    mount command exactly when an image was burnt, and the optional tasks
    are the union of devices and packages. *)
Theorem staging_returns
    (E : Env) (args : Dict.t string) (ud repo ref : string) (s s' : State)
    (arch board : string) (opt : Dict.t (Dict.t string)) :
  stage E args ud repo ref s = (s', Ok (arch, board, opt)) →
  ∃ s1,
    configure_board E ud
      (Dict.get_default "custom-config" "none" args)
      (Dict.get_default "arch" "riscv64" args)
      (Dict.get_default "board" "default" args)
      (Dict.get_default "resc" "default" args)
      (Dict.get_default "repl" "default" args) s = (s1, Ok (arch, board))
    ∧ ¬ (PyStr.strip_is_empty (Dict.get_default "kernel" "" args) = true
         ∧ board = "custom")
    ∧ trace s' = trace s1 ++ staging_events args ud repo ref arch board
    ∧ commands s'
      = commands s1
        ++ (if decide (Dict.get_default "image" "" args = "none") then []
            else [mount_command])
    ∧ opt = optional_tasks_of E args arch.
Proof.
  unfold stage. intros H. bind_inv H as s1 ab H1. destruct ab as [a b].
  simpl in H.
  bind_inv H as s2 k2 H2. bind_inv H as s3 u3 H3. bind_inv H as s4 u4 H4.
  bind_inv H as s5 u5 H5. bind_inv H as s6 u6 H6. bind_inv H as s7 u7 H7.
  bind_inv H as s8 u8 H8. bind_inv H as s9 u9 H9.
  injection H as <- <- <- <-.
  exists s1. split; [done |].
  apply kernel_choice_ok_inv in H2 as (Hk & -> & ->).
  apply call_ok_inv in H3 as [-> _]. apply call_ok_inv in H4 as [-> _].
  apply call_ok_inv in H5 as [-> _]. apply call_ok_inv in H6 as [-> _].
  apply call_ok_inv in H7 as [-> _].
  apply prepare_image_ok_inv in H8 as [Ht8 Hc8].
  rewrite for_each_task_fetch in H9.
  apply for_each_call_ok_inv in H9 as [Ht9 Hc9].
  split; [done |]. split; [| split; [| done]].
  - rewrite Ht9, Ht8. unfold staging_events, task_fetches. simpl.
    rewrite <- !(assoc_L (++)). simpl. done.
  - rewrite Hc9, Hc8. done.
Qed.

Lemma staging_returns_witness :
  let args := [("tasks", "a.yml"); ("image", "none")] in
  let E := Sample.env args in
  ∃ s1,
    configure_board E "/w"
      (Dict.get_default "custom-config" "none" args)
      (Dict.get_default "arch" "riscv64" args)
      (Dict.get_default "board" "default" args)
      (Dict.get_default "resc" "default" args)
      (Dict.get_default "repl" "default" args) initial_state
    = (s1, Ok ("riscv64", "hifive_unleashed"))
    ∧ ¬ (PyStr.strip_is_empty (Dict.get_default "kernel" "" args) = true
         ∧ "hifive_unleashed" = "custom")
    ∧ trace (stage E args "/w" "org/repo" "v1" initial_state).1
      = trace s1
        ++ staging_events args "/w" "org/repo" "v1" "riscv64" "hifive_unleashed"
    ∧ commands (stage E args "/w" "org/repo" "v1" initial_state).1
      = commands s1
        ++ (if decide (Dict.get_default "image" "" args = "none") then []
            else [mount_command])
    ∧ [] = optional_tasks_of E args "riscv64".
Proof.
  intros args E.
  apply (staging_returns E args "/w" "org/repo" "v1" initial_state).
  vm_compute. reflexivity.
Defined.

(** X9: a custom board has no default kernel.  When [configure_board]
    returned the board "custom" and the "kernel" input is blank, staging
    reports "You have to provide custom kernel for custom board." and exits
    with status 1 before the kernel is prepared or anything else is
    staged. *)
Theorem custom_board_needs_kernel
    (E : Env) (args : Dict.t string) (ud repo ref arch : string)
    (s s1 : State) :
  configure_board E ud
    (Dict.get_default "custom-config" "none" args)
    (Dict.get_default "arch" "riscv64" args)
    (Dict.get_default "board" "default" args)
    (Dict.get_default "resc" "default" args)
    (Dict.get_default "repl" "default" args) s = (s1, Ok (arch, "custom")) →
  PyStr.strip_is_empty (Dict.get_default "kernel" "" args) = true →
  stage E args ud repo ref s
  = ({| trace :=
          trace s1
          ++ [Error "You have to provide custom kernel for custom board."];
        commands := commands s1 |},
     Raise (SystemExit 1)).
Proof.
  intros Hcb Hk. unfold stage. rewrite (bind_ok _ _ _ _ _ Hcb).
  cbn beta iota. rewrite Hk. reflexivity.
Qed.

Lemma custom_board_needs_kernel_witness :
  stage (Sample.env [("custom-config", "board.yml")])
    [("custom-config", "board.yml")] "/w" "org/repo" "v1" initial_state
  = ({| trace :=
          [GetFile "board.yml" "action/device/custom" "/w";
           Error "You have to provide custom kernel for custom board."];
        commands := [["mkdir"; "rootfs"]] |},
     Raise (SystemExit 1)).
Proof.
  apply (custom_board_needs_kernel (Sample.env [("custom-config", "board.yml")])
           [("custom-config", "board.yml")] "/w" "org/repo" "v1" "riscv64"
           initial_state
           {| trace := [GetFile "board.yml" "action/device/custom" "/w"];
              commands := [["mkdir"; "rootfs"]] |});
    reflexivity.
Defined.

(** ** What the collaborators are never handed *)

Section WellFed.

Context (E : Env).

Lemma emits_bind_ensures {A B} (P : Event → Prop) (m : M A) (k : A → M B)
    (Q : A → Prop) :
  ensures P m Q → (∀ a, Q a → emits P (k a)) → emits P (bind m k).
Proof.
  intros Hm Hk s. destruct (Hm s) as (e1 & H1 & F1 & HQ).
  rewrite bind_run. destruct (m s) as [s1 [a|x]]; simpl in *.
  - destruct (Hk a (HQ a eq_refl) s1) as (e2 & H2 & F2).
    exists (e1 ++ e2). rewrite H2, H1, (assoc_L (++)).
    split; [done | by apply Forall_app].
  - by exists e1.
Qed.

Lemma kernel_choice_ensures repo ref arch board kernel :
  ensures fed
    (if PyStr.strip_is_empty kernel && bool_decide (board = "custom") then
       error "You have to provide custom kernel for custom board." >>
       ret kernel
     else if PyStr.strip_is_empty kernel then
       ret (DEFAULT_KERNEL_PATH repo ref arch board)
     else ret kernel)
    (fun k => PyStr.strip_is_empty k = false).
Proof.
  intros s. destruct (PyStr.strip_is_empty kernel) eqn:Hb; simpl.
  - destruct (bool_decide (board = "custom")); simpl.
    + eexists [_]. split; [done |]. split; [by repeat constructor | done].
    + exists []. rewrite app_nil_r. split; [done |]. split; [done |].
      by intros a [= <-].
  - exists []. rewrite app_nil_r. split; [done |]. split; [done |].
    by intros a [= <-].
Qed.

Lemma prepare_image_well_fed repo ref ud image arch size ty :
  emits fed (prepare_image E repo ref ud image arch size ty).
Proof.
  unfold prepare_image. destruct (decide (image = "none")) as [|Hn].
  - apply emits_ret.
  - apply emits_bind; [| intros _; apply emits_commands_append].
    apply emits_call. unfold fed, well_fed.
    destruct (PyStr.strip_is_empty image) eqn:Hb; [done |].
    rewrite Hb. by rewrite bool_decide_eq_false_2.
Qed.

Lemma configure_board_well_fed ud cc arch board resc repl :
  emits fed (configure_board E ud cc arch board resc repl).
Proof. unfold configure_board. emits_auto. Qed.

Lemma stage_well_fed args ud repo ref :
  emits fed (stage E args ud repo ref).
Proof.
  unfold stage.
  apply emits_bind; [apply configure_board_well_fed | intros [arch board]].
  eapply emits_bind_ensures; [apply kernel_choice_ensures | intros k Hk].
  apply emits_bind.
  { apply emits_call. unfold fed, well_fed. by rewrite Hk. }
  intros _. emits_auto. apply prepare_image_well_fed.
Qed.

Lemma main_well_fed argv : emits fed (main E argv).
Proof.
  unfold main.
  apply emits_bind.
  { unfold parse_arguments. emits_auto. }
  intros [[[args ud] repo] ref].
  apply emits_bind; [apply stage_well_fed | intros [[arch board] opt]].
  apply emits_bind.
  - unfold dispatch, disable_network, test_task. emits_auto.
  - intros _. unfold collect. emits_auto.
Qed.

End WellFed.

(** X10: in no run is [prepare_kernel_and_initramfs] handed a blank kernel,
    nor [burn_rootfs_image] a blank image or the image "none": a blank input
    is replaced by the default download path before the call, and "none"
    skips the burn. *)
Theorem collaborators_are_well_fed (E : Env) (argv : list string) :
  (∀ ud kernel,
     PrepareKernelAndInitramfs ud kernel ∈ trace (run_main E argv).1 →
     PyStr.strip_is_empty kernel = false)
  ∧ (∀ ud image arch size ty,
       BurnRootfsImage ud image arch size ty ∈ trace (run_main E argv).1 →
       PyStr.strip_is_empty image = false ∧ image ≠ "none").
Proof.
  destruct (main_well_fed E argv initial_state) as (evs & Ht & F).
  unfold run_main. rewrite Ht. simpl. rewrite Forall_forall in F.
  split.
  - intros ud kernel Hin. specialize (F _ Hin).
    by apply negb_true_iff in F.
  - intros ud image arch size ty Hin. specialize (F _ Hin). simpl in F.
    apply andb_prop in F as [F1 F2].
    apply negb_true_iff in F1. apply negb_true_iff in F2.
    by apply bool_decide_eq_false in F2.
Qed.

Lemma collaborators_are_well_fed_witness :
  PyStr.strip_is_empty
    "https://github.com/antmicro/renode-linux-runner-action/releases/download/v1/kernel-riscv64-hifive_unleashed.tar.xz"
  = false.
Proof.
  destruct (collaborators_are_well_fed (Sample.env [("kernel", "  ")])
              Sample.argv) as [H _].
  apply (H "/github/workspace"). elem_of_list.
Defined.

(** ** Collecting the results *)

Section Collect.

Context (E : Env).

Lemma follows_from_bind {A B} (m : M A) (k : A → M B) s i1 i2 Q1 Q2 :
  follows_from s m i1 Q1 →
  (∀ a, (m s).2 = Ok a → Q1 a → follows_from (m s).1 (k a) i2 Q2) →
  follows_from s (bind m k) (i1 ++ i2) Q2.
Proof.
  intros [Hc Ht] Hk. unfold follows_from. rewrite bind_run.
  destruct (m s) as [s1 [a|x]]; simpl in *.
  - destruct Ht as [Ht Ha]. destruct (Hk a eq_refl Ha) as [Hc' Ht'].
    split; [congruence |].
    destruct ((k a s1).2).
    + destruct Ht' as [-> HQ]. by rewrite Ht, (assoc_L (++)).
    + destruct Ht' as (evs & -> & Hp). exists (i1 ++ evs).
      rewrite Ht, (assoc_L (++)). split; [done | by apply prefix_app].
  - split; [done |]. destruct Ht as (evs & -> & Hp).
    exists evs. split; [done | by apply prefix_app_r].
Qed.

Lemma follows_from_copy_loop ud dirs s :
  follows_from s
    (for_each dirs
       (fun dir =>
          let src := "rootfs/" +:+ target dir in
          let dst :=
            if negb (PyStr.startswith_char "/" (host dir))
            then ud +:+ "/" +:+ host dir
            else host dir in
          let* now := get_trace in
          when (path_exists E now src) (call E (CopyTree src dst))))
    (copy_events E ud dirs (trace s)) (fun _ => True).
Proof.
  revert s. induction dirs as [|dir dirs IH]; intros s.
  - unfold follows_from. simpl. by rewrite app_nil_r.
  - cbn [for_each copy_events]. cbv zeta.
    destruct (path_exists E (trace s) ("rootfs/" +:+ target dir)) eqn:Hex.
    + apply (follows_from_bind _ _ s [copy_back ud dir] _ (fun _ => True)).
      * unfold follows_from. rewrite bind_run. cbn [get_trace].
        rewrite Hex. cbn [when]. apply follows_call.
      * intros [] Hok _.
        assert ((let* now := get_trace
                 in when (path_exists E now ("rootfs/" +:+ target dir))
                      (call E (copy_back ud dir))) s
                = call E (copy_back ud dir) s) as Heq.
        { rewrite bind_run. cbn [get_trace]. by rewrite Hex. }
        unfold copy_back in Heq. rewrite Heq. rewrite call_run. cbn [fst].
        apply IH.
    + apply (follows_from_bind _ _ s [] _ (fun _ => True)).
      * unfold follows_from. rewrite bind_run. cbn [get_trace].
        rewrite Hex. simpl. by rewrite app_nil_r.
      * intros [] Hok _.
        assert ((let* now := get_trace
                 in when (path_exists E now ("rootfs/" +:+ target dir))
                      (call E (copy_back ud dir))) s
                = (s, Ok tt)) as Heq.
        { rewrite bind_run. cbn [get_trace]. by rewrite Hex. }
        unfold copy_back in Heq. rewrite Heq. cbn [fst]. apply IH.
Qed.

Lemma follows_from_collect ud s :
  follows_from s (collect E ud) (collect_events E ud s) (fun _ => True).
Proof.
  unfold collect, collect_events.
  assert (∀ (k : list (list string) → M unit) ideal Q,
            follows_from s (k (commands s)) ideal Q →
            follows_from s (bind get_commands k) ideal Q) as Hget by done.
  apply Hget.
  apply (follows_from_bind _ _ s _ _ (fun _ => True)).
  - apply (follows_for_each_call E (commands s) Run).
  - intros [] Hok _.
    destruct (follows_for_each_call E (commands s) Run s) as [Hc Ht].
    rewrite Hok in Ht. destruct Ht as [Ht _].
    set (s1 := (for_each (commands s) (fun command => call E (Run command)) s).1)
      in *.
    assert (∀ (k : list Event → M unit) ideal Q,
              follows_from s1 (k (trace s1)) ideal Q →
              follows_from s1 (bind get_trace k) ideal Q) as Hget' by done.
    apply Hget'. rewrite <- Ht. apply follows_from_copy_loop.
Qed.

End Collect.

(** X11: [collect] (lines 195-202) leaves [commands] alone.  When it
    returns, its calls are the queued commands, each run once and in the
    order of the list, followed by the copies of the shared directories
    whose source under rootfs exists at that time, in the order of the
    list; when a call raises, they are an initial part of these. *)
Theorem collect_runs_then_copies (E : Env) (ud : string) (s : State) :
  commands (collect E ud s).1 = commands s
  ∧ ∃ evs,
      trace (collect E ud s).1 = trace s ++ evs
      ∧ evs `prefix_of` collect_events E ud s
      ∧ ((collect E ud s).2 = Ok tt → evs = collect_events E ud s).
Proof.
  destruct (follows_from_collect E ud s) as [Hc Ht]. split; [done |].
  destruct ((collect E ud s).2) as [[]|x].
  - destruct Ht as [Ht _]. by exists (collect_events E ud s).
  - destruct Ht as (evs & Ht & Hp). by exists evs.
Qed.

Lemma collect_runs_then_copies_witness :
  trace (collect (Sample.env []) "/w" initial_state).1
  = [Run ["mkdir"; "rootfs"]; CopyTree "rootfs/home" "/w/out"].
Proof.
  destruct (collect_runs_then_copies (Sample.env []) "/w" initial_state)
    as (_ & evs & Ht & _ & Heq).
  rewrite Ht, Heq; reflexivity.
Defined.

Section CollectInRun.

Context (E : Env).

Lemma parse_arguments_idle argv : emits idle (parse_arguments E argv).
Proof. unfold parse_arguments. emits_auto. Qed.

Lemma stage_idle args ud repo ref : emits idle (stage E args ud repo ref).
Proof. unfold stage, configure_board, prepare_image. emits_auto. Qed.

Lemma dispatch_idle args arch board opt :
  emits idle (dispatch E args arch board opt).
Proof. unfold dispatch, disable_network, test_task. emits_auto. Qed.

(** A run stops before it collects anything, or it is [collect] started
    after a call of [evaluate] that returned. *)
Lemma main_collects argv :
  (Forall idle (trace (run_main E argv).1)
   ∧ ∃ x, (run_main E argv).2 = Raise x)
  ∨ ∃ ud s2 before,
      argv !! 2 = Some ud
      ∧ run_main E argv = collect E ud s2
      ∧ trace s2 = before ++ [Evaluate]
      ∧ raises E before Evaluate = None
      ∧ Forall idle (trace s2).
Proof.
  unfold run_main, main. rewrite bind_run.
  destruct (parse_arguments_idle argv initial_state) as (e0 & H0 & F0).
  destruct (parse_arguments E argv initial_state)
    as [s0 [[[[args ud] repo] ref]|x]] eqn:Hp; simpl in *.
  2: { left. rewrite H0. split; [done | by exists x]. }
  apply parse_arguments_ok_inv in Hp as (_ & Hud & ->).
  rewrite bind_run.
  destruct (stage_idle args ud repo ref initial_state) as (e1 & H1 & F1).
  destruct (stage E args ud repo ref initial_state)
    as [s1 [[[arch board] opt]|x]] eqn:Hs; simpl in *.
  2: { left. rewrite H1. split; [done | by exists x]. }
  rewrite bind_run.
  destruct (dispatch_idle args arch board opt s1) as (e2 & H2 & F2).
  assert (Forall idle (trace (dispatch E args arch board opt s1).1)) as Fd.
  { rewrite H2, H1. simpl. by apply Forall_app. }
  destruct (dispatch E args arch board opt s1) as [s2 [[]|x]] eqn:Hd;
    simpl in *; [| left; split; [done | by exists x]].
  right.
  assert (∃ before, trace s2 = before ++ [Evaluate]
                    ∧ raises E before Evaluate = None) as (before & Hb & Hr).
  { unfold dispatch in Hd. bind_inv Hd as sa ma Ha. bind_inv Hd as sb ub Hb.
    bind_inv Hd as sc uc Hc. bind_inv Hd as sd ud' Hd'.
    bind_inv Hd as se te He. bind_inv Hd as sf uf Hf.
    rewrite call_run in Hd. exists (trace sf).
    destruct (raises E (trace sf) Evaluate); [done |].
    by injection Hd as <-. }
  by exists ud, s2, before.
Qed.

End CollectInRun.

(** X12: the queued host commands are run and the shared directories are
    copied back only after [evaluate] was called and returned: in every run
    a [run] or a [copytree] call comes in the trace after a call of
    [evaluate] that did not raise, and no host command is run at all in a
    run that stops before. *)
Theorem collect_only_after_evaluate_returned
    (E : Env) (argv : list string) (e : Event) :
  e ∈ trace (run_main E argv).1 →
  is_collect_call e = true →
  ∃ before after,
    trace (run_main E argv).1 = before ++ Evaluate :: after
    ∧ raises E before Evaluate = None
    ∧ e ∈ after
    ∧ Forall (fun e' => is_collect_call e' = false) before.
Proof.
  intros Hin He.
  destruct (main_collects E argv) as [[F _] | (ud & s2 & before & _ & Hrun & Hb
                                                & Hr & F)].
  { rewrite Forall_forall in F. specialize (F e Hin). unfold idle in F.
    congruence. }
  destruct (collect_emits E ud s2) as (evs & Ht & _).
  rewrite Hrun in *. rewrite Ht, Hb in *.
  exists before, evs. rewrite <- (assoc_L (++)). split; [done |].
  split; [done |].
  apply Forall_app in F as [F F']. split; [| done].
  rewrite <- (assoc_L (++)) in Hin. simpl in Hin.
  apply elem_of_app in Hin as [Hin | Hin].
  - rewrite Forall_forall in F. specialize (F e Hin). unfold idle in F.
    congruence.
  - apply elem_of_cons in Hin as [-> | Hin]; [done | done].
Qed.

Lemma collect_only_after_evaluate_returned_witness :
  ∃ before after,
    trace (run_main (Sample.env [("image", "none")]) Sample.argv).1
    = before ++ Evaluate :: after
    ∧ raises (Sample.env [("image", "none")]) before Evaluate = None
    ∧ Run ["mkdir"; "rootfs"] ∈ after
    ∧ Forall (fun e' => is_collect_call e' = false) before.
Proof.
  apply (collect_only_after_evaluate_returned
           (Sample.env [("image", "none")]) Sample.argv
           (Run ["mkdir"; "rootfs"]));
    [elem_of_list | reflexivity].
Defined.

Section CommandsRun.

Context (E : Env).

Lemma commands_run_idle l : Forall idle l → commands_run l = [].
Proof.
  induction 1 as [|e l He _ IH]; [done |].
  unfold commands_run in *. simpl. destruct e; try done.
Qed.

Lemma commands_run_Run (l : list (list string)) : commands_run (Run <$> l) = l.
Proof.
  unfold commands_run. induction l as [|c l IH]; csimpl; [done | by f_equal].
Qed.

Lemma commands_run_copy_events ud dirs made :
  commands_run (copy_events E ud dirs made) = [].
Proof.
  revert made. induction dirs as [|dir dirs IH]; intros made; simpl; [done |].
  destruct (path_exists E made _); [| apply IH].
  unfold commands_run in *. simpl. apply IH.
Qed.

Lemma commands_run_collect_events ud s :
  commands_run (collect_events E ud s) = commands s.
Proof.
  unfold collect_events. cbv zeta. unfold commands_run. rewrite omap_app.
  fold (commands_run (Run <$> commands s)).
  fold (commands_run
          (copy_events E ud
             (shared_directories_actions E (trace s ++ (Run <$> commands s)))
             (trace s ++ (Run <$> commands s)))).
  by rewrite commands_run_Run, commands_run_copy_events, app_nil_r.
Qed.

Lemma commands_run_prefix evs l :
  evs `prefix_of` l → commands_run evs `prefix_of` commands_run l.
Proof.
  intros [k ->]. unfold commands_run. rewrite omap_app. by eexists.
Qed.

End CommandsRun.

(** X13: the host commands a run executes are an initial part of the list
    [commands] as the run leaves it, in the order of the list, and in a run
    that completes they are the whole list: mkdir rootfs, followed by the
    mount of the image when an image was burnt. *)
Theorem host_commands_run_in_order (E : Env) (argv : list string) :
  commands_run (trace (run_main E argv).1)
    `prefix_of` commands (run_main E argv).1
  ∧ ((run_main E argv).2 = Ok tt →
     commands_run (trace (run_main E argv).1) = commands (run_main E argv).1)
  ∧ (commands (run_main E argv).1 = [["mkdir"; "rootfs"]]
     ∨ commands (run_main E argv).1
       = [["mkdir"; "rootfs"];
          ["sudo"; "mount"; "images/rootfs.img"; "rootfs"]]).
Proof.
  split; [| split].
  - destruct (main_collects E argv) as [[F _] | (ud & s2 & before & _ & Hrun
                                                  & _ & _ & F)].
    { rewrite (commands_run_idle _ F). apply prefix_nil. }
    rewrite Hrun. destruct (follows_from_collect E ud s2) as [Hc Ht].
    rewrite Hc, <- (commands_run_collect_events E ud s2).
    assert (∃ evs, trace (collect E ud s2).1 = trace s2 ++ evs
                   ∧ evs `prefix_of` collect_events E ud s2)
      as (evs & Hev & Hp).
    { destruct ((collect E ud s2).2).
      - destruct Ht as [Ht _]. by exists (collect_events E ud s2).
      - done. }
    rewrite Hev. unfold commands_run at 1. rewrite omap_app.
    fold (commands_run (trace s2)). fold (commands_run evs).
    rewrite (commands_run_idle _ F). by apply commands_run_prefix.
  - intros Hok.
    destruct (main_collects E argv) as [[_ [x Hx]] | (ud & s2 & before & _
                                                      & Hrun & _ & _ & F)].
    { congruence. }
    rewrite Hrun in *. destruct (follows_from_collect E ud s2) as [Hc Ht].
    rewrite Hok in Ht. destruct Ht as [Ht _].
    rewrite Hc, Ht. unfold commands_run at 1. rewrite omap_app.
    fold (commands_run (trace s2)).
    fold (commands_run (collect_events E ud s2)).
    by rewrite (commands_run_idle _ F), commands_run_collect_events.
  - destruct (main_commands E argv) as [H | (args' & _ & _ & H)]; auto.
Qed.

Lemma host_commands_run_in_order_witness :
  commands_run (trace (run_main (Sample.env []) Sample.argv).1)
  = [["mkdir"; "rootfs"]; ["sudo"; "mount"; "images/rootfs.img"; "rootfs"]].
Proof.
  destruct (host_commands_run_in_order (Sample.env []) Sample.argv)
    as (_ & H & _).
  rewrite H; reflexivity.
Defined.

(** ** The test task in a run *)

(** X14: a run adds at most one task to the dispatcher, and the task it
    adds is the one [test_task] built from the "renode-run" input (the empty
    string when the input is missing); every other call of the run is
    something else than [add_task]. *)
Theorem added_task_is_the_test_task
    (E : Env) (argv : list string) (args : Dict.t string) (t : Task) :
  decoded_args E argv args →
  AddTask t ∈ trace (run_main E argv).1 →
  test_task_outcome E (Dict.get_default "renode-run" "" args) = Ok t
  ∧ ∃ before after,
      trace (run_main E argv).1 = before ++ AddTask t :: after
      ∧ Forall (fun e => ∀ t', e ≠ AddTask t') before
      ∧ Forall (fun e => ∀ t', e ≠ AddTask t') after.
Proof.
  intros Hdec Hin. destruct (main_run E argv) as [Hq | H].
  { by apply (quiet_not_dispatcher _ (AddTask t)) in Hq. }
  destruct H as (args' & ud & repo & ref & s0 & arch & board & opt & s1 & evs
                 & post & Hp & Hs & Ht & Hpre & Fs1 & Fpost & _).
  apply parse_arguments_ok_inv in Hp as (Hdec' & _ & ->).
  rewrite <- (decoded_args_unique E argv args args') in * by done.
  rewrite Ht in Hin. rewrite !elem_of_app in Hin.
  destruct Hin as [Hin | [Hin | Hin]];
    [by apply (quiet_not_dispatcher _ (AddTask t)) in Fs1 | |
     by apply (quiet_not_dispatcher _ (AddTask t)) in Fpost].
  set (now := datetime_now E (trace s1)) in *.
  set (front :=
         [DispatcherInit board (template_variables now board) opt]
         ++ ((fun n => EnableTask n true) <$> Dict.keys opt)
         ++ network_events E args arch
         ++ test_task_events E (Dict.get_default "renode-run" "" args)).
  set (tail :=
         match test_task_outcome E (Dict.get_default "renode-run" "" args) with
         | Ok t => [AddTask t; Evaluate]
         | Raise _ => []
         end).
  assert (dispatch_events E now args arch board opt = front ++ tail) as Heq.
  { unfold dispatch_events, front, tail. by rewrite <- !(assoc_L (++)). }
  rewrite Heq in Hpre.
  assert (Forall (fun e => ∀ t', e ≠ AddTask t') front) as Ffront.
  { unfold front. rewrite !Forall_app. repeat split.
    - by repeat constructor.
    - apply Forall_forall. by intros e (? & -> & _)%list_elem_of_fmap t'.
    - eapply Forall_impl; [apply network_events_enable |].
      by intros e [n ->] t'.
    - eapply Forall_impl; [apply test_task_events_constructor |].
      by intros [] He t'. }
  assert (AddTask t ∉ front) as Hfront.
  { intros Hbad. rewrite Forall_forall in Ffront.
    by destruct (Ffront _ Hbad t). }
  destruct (prefix_app_split _ _ _ _ Hpre Hin Hfront) as (evs' & -> & Hevs').
  apply elem_of_app in Hin as [Hin | Hin]; [done |].
  unfold tail in Hevs'.
  destruct (test_task_outcome E (Dict.get_default "renode-run" "" args))
    as [t0|x] eqn:Hout.
  2: { apply prefix_nil_inv in Hevs' as ->. by apply elem_of_nil in Hin. }
  destruct evs' as [|e evs'']; [by apply elem_of_nil in Hin |].
  pose proof (prefix_cons_inv_1 _ _ _ _ Hevs') as ->.
  apply prefix_cons_inv_2 in Hevs'.
  assert (Forall (fun e => ∀ t', e ≠ AddTask t') evs'') as Fevs.
  { destruct Hevs' as [k Hk]. destruct evs'' as [|e [|]]; [done | |].
    - injection Hk as <- _. by repeat constructor.
    - destruct l; discriminate. }
  apply elem_of_cons in Hin as [[= ->] | Hin].
  2: { rewrite Forall_forall in Fevs. by destruct (Fevs _ Hin t). }
  split; [done |].
  exists (trace s1 ++ front), (evs'' ++ post). split; [| split].
  - rewrite Ht. by rewrite <- !(assoc_L (++)).
  - apply Forall_app. split; [| done].
    eapply Forall_impl; [exact Fs1 |]. by intros [] Hq t'.
  - apply Forall_app. split; [done |].
    eapply Forall_impl; [exact Fpost |]. by intros [] Hq t'.
Qed.

Lemma added_task_is_the_test_task_witness :
  test_task_outcome (Sample.env [("renode-run", "uname -a")])
    (Dict.get_default "renode-run" "" [("renode-run", "uname -a")])
  = Ok {| task_name := "action_test"; task_shell := "target";
          task_requires := ["chroot"; "python"]; task_echo := true;
          task_body := ["uname -a"]; task_enabled := true |}.
Proof.
  apply (added_task_is_the_test_task (Sample.env [("renode-run", "uname -a")])
           Sample.argv [("renode-run", "uname -a")]).
  - by exists "{...}".
  - elem_of_list.
Defined.

(** ** The order of activation *)

Lemma filter_ext_elem_of {A} (P1 P2 : A → Prop)
    `{!∀ x, Decision (P1 x), !∀ x, Decision (P2 x)} (l : list A) :
  (∀ x, x ∈ l → P1 x ↔ P2 x) → filter P1 l = filter P2 l.
Proof.
  induction l as [|a l IH]; intros Hext; [done |].
  assert (filter P1 l = filter P2 l) as Hl.
  { apply IH. intros x Hx. apply Hext. by apply list_elem_of_further. }
  pose proof (Hext a (list_elem_of_here a l)) as Ha.
  destruct (decide (P1 a)) as [Hp | Hp].
  - rewrite !filter_cons_True by tauto. by rewrite Hl.
  - rewrite !filter_cons_False by tauto. done.
Qed.

Lemma Dict_keys_update {V} (d other : Dict.t V) :
  Dict.wf other →
  Dict.keys (Dict.update d other)
  = Dict.keys d ++ filter (fun k => k ∉ Dict.keys d) (Dict.keys other).
Proof.
  revert d. induction other as [|[k v] other IH]; intros d Hwf.
  - simpl. by rewrite app_nil_r.
  - apply NoDup_cons in Hwf as [Hk Hwf]. simpl in Hk.
    rewrite Dict_update_cons, IH by done. rewrite Dict_keys_set.
    change (Dict.keys ((k, v) :: other)) with (k :: Dict.keys other).
    rewrite filter_cons.
    destruct (decide (k ∈ Dict.keys d)) as [Hin | Hin].
    + by rewrite decide_False by (by intros ?).
    + rewrite decide_True by done. rewrite <- (assoc_L (++)). simpl.
      do 2 f_equal. apply filter_ext_elem_of. intros x Hx.
      rewrite elem_of_app, list_elem_of_singleton.
      split; [tauto |]. intros Hnd [? | ->]; [done | by apply Hk].
Qed.

(** X15: in a run that gets past the activation rules, the optional tasks
    are switched on in the order of the merged mapping: first the device
    tasks in the order [add_devices] gave them, then the python-package
    tasks whose names are not device names, in the order [add_packages]
    gave them. *)
Theorem optional_tasks_enabled_devices_first
    (E : Env) (argv : list string) (args : Dict.t string) :
  env_dicts_wf E →
  decoded_args E argv args →
  builds_test_task (trace (run_main E argv).1) →
  let devices := add_devices E (Dict.get_default "devices" "" args) in
  let python_packages :=
    add_packages E (Dict.get_default "arch" "riscv64" args)
      (Dict.get_default "python-packages" "" args) in
  enabled_names (trace (run_main E argv).1)
  = Dict.keys devices
    ++ filter (fun name => name ∉ Dict.keys devices) (Dict.keys python_packages).
Proof.
  intros [_ Hwf] Hdec Hin devices python_packages.
  destruct (main_past_activation E argv Hin)
    as (args' & arch' & board & pre & rest & Hdec' & _ & -> & Htr & Fpre
        & Frest).
  rewrite <- (decoded_args_unique E argv args args') in * by done.
  assert (enabled_names pre = []) as Hpre.
  { apply omap_quiet; [by intros [] | done]. }
  assert (enabled_names rest = []) as Hrest.
  { apply omap_no_enable; [| done]. intros [] H; try done.
    by destruct (H name enabled). }
  rewrite Htr. unfold enabled_names in *.
  rewrite omap_app, Hpre, omap_app, Hrest, app_nil_r, app_nil_l.
  pose proof (enabled_names_activation E (datetime_now E pre) args
                (Dict.get_default "arch" "riscv64" args) board
                (optional_tasks_of E args (Dict.get_default "arch" "riscv64" args)))
    as Hact.
  unfold enabled_names in Hact. rewrite Hact.
  unfold optional_tasks_of, Dict.union. apply Dict_keys_update, Hwf.
Qed.

Lemma sample_dicts_wf args : env_dicts_wf (Sample.env args).
Proof.
  split.
  - intros spec. unfold Dict.wf, Dict.keys. simpl. unfold Sample.devices.
    rewrite <- list_fmap_compose.
    apply NoDup_fmap_2; [| apply NoDup_remove_dups].
    intros x y [= Hxy]. done.
  - intros arch spec. unfold Dict.wf. simpl. unfold Sample.packages.
    case_decide; [apply NoDup_nil_2 | apply NoDup_singleton].
Qed.

Lemma optional_tasks_enabled_devices_first_witness :
  let args :=
    [("devices", "vivid" +:+ String "010" "gpio"); ("python-packages", "pyyaml")]
  in
  enabled_names (trace (run_main (Sample.env args) Sample.argv).1)
  = ["device-vivid"; "device-gpio"; "python-packages"].
Proof.
  intros args.
  rewrite (optional_tasks_enabled_devices_first (Sample.env args) Sample.argv
             args (sample_dicts_wf args)).
  - reflexivity.
  - by exists "{...}".
  - exists "", test_task_params. elem_of_list.
Defined.

(** X16: when networking is denied, switching the network tasks off is the
    last word on activation: in a run that gets past the activation rules,
    the three calls [enable_task(name, False)] for host_network,
    renode_network and target_network are followed by no other
    [enable_task] call, so a network task that is also an optional task
    ends switched off. *)
Theorem network_tasks_stay_off
    (E : Env) (argv : list string) (args : Dict.t string) :
  decoded_args E argv args →
  builds_test_task (trace (run_main E argv).1) →
  network_denied E args (Dict.get_default "arch" "riscv64" args) →
  ∃ before rest,
    trace (run_main E argv).1
    = before
      ++ [EnableTask "host_network" false; EnableTask "renode_network" false;
          EnableTask "target_network" false]
      ++ rest
    ∧ Forall (fun e => ∀ name enabled, e ≠ EnableTask name enabled) rest.
Proof.
  intros Hdec Hin Hden.
  destruct (main_past_activation E argv Hin)
    as (args' & arch' & board & pre & rest & Hdec' & _ & -> & Htr & Fpre
        & Frest).
  rewrite <- (decoded_args_unique E argv args args') in * by done.
  rewrite (network_events_denied E _ _ Hden) in Htr.
  eexists _, rest. split; [| done].
  rewrite Htr. rewrite !(assoc_L (++)). reflexivity.
Qed.

Lemma network_tasks_stay_off_witness :
  ∃ before rest,
    trace (run_main (Sample.env [("arch", "arm32")]) Sample.argv).1
    = before
      ++ [EnableTask "host_network" false; EnableTask "renode_network" false;
          EnableTask "target_network" false]
      ++ rest
    ∧ Forall (fun e => ∀ name enabled, e ≠ EnableTask name enabled) rest.
Proof.
  apply (network_tasks_stay_off (Sample.env [("arch", "arm32")]) Sample.argv
           [("arch", "arm32")]).
  - by exists "{...}".
  - exists "", test_task_params. elem_of_list.
  - right. eexists. split; reflexivity.
Defined.

(** ** The user task files *)

Lemma of_nat_inj (n m : nat) : PyStr.of_nat n = PyStr.of_nat m → n = m.
Proof.
  unfold PyStr.of_nat. intros H.
  apply DecimalNat.Unsigned.to_uint_inj.
  assert (Some (Nat.to_uint n) = Some (Nat.to_uint m)) as Hs.
  { by rewrite <- !NilEmpty.usu, H. }
  by injection Hs.
Qed.

Lemma append_inj_r (a b c : string) : a +:+ c = b +:+ c → a = b.
Proof.
  revert b. induction a as [|x a IH]; intros [|y b] H.
  - done.
  - apply (f_equal String.length) in H.
    rewrite !length_append in H. simpl in H. lia.
  - apply (f_equal String.length) in H.
    rewrite !length_append in H. simpl in H. lia.
  - simpl in H. injection H as -> H. f_equal. by apply IH.
Qed.

Lemma task_destination_inj (i j : nat) :
  "action/user_tasks/task" +:+ PyStr.of_nat i +:+ ".yml"
  = "action/user_tasks/task" +:+ PyStr.of_nat j +:+ ".yml" →
  i = j.
Proof.
  intros H. simpl in H. injection H as H.
  by apply of_nat_inj, (append_inj_r _ _ ".yml").
Qed.

Lemma enumerate_lookup {A} (l : list A) i x :
  l !! i = Some x → enumerate l !! i = Some (i, x).
Proof.
  intros H. unfold enumerate. apply lookup_zip_with_Some.
  exists i, x. split; [done |]. split; [| done].
  apply lookup_seq. split; [done |]. by apply lookup_lt_Some in H.
Qed.

Lemma enumerate_fst {A} (l : list A) : (enumerate l).*1 = seq 0 (length l).
Proof. unfold enumerate. apply fst_zip. by rewrite length_seq. Qed.

Section UserTasks.

Context (E : Env).

Lemma stage_ends_with_task_fetches args ud repo ref s s' r :
  stage E args ud repo ref s = (s', Ok r) →
  ∃ before,
    trace s' = before ++ task_fetches ud (Dict.get_default "tasks" "" args).
Proof.
  unfold stage. intros H. bind_inv H as s1 ab H1. destruct ab as [a b].
  simpl in H.
  bind_inv H as s2 k2 H2. bind_inv H as s3 u3 H3. bind_inv H as s4 u4 H4.
  bind_inv H as s5 u5 H5. bind_inv H as s6 u6 H6. bind_inv H as s7 u7 H7.
  bind_inv H as s8 u8 H8. bind_inv H as s9 u9 H9.
  injection H as <- _.
  rewrite for_each_task_fetch in H9.
  apply for_each_call_ok_inv in H9 as [Ht9 _]. by exists (trace s8).
Qed.

End UserTasks.

(** X17: when staging returns, its last calls are the fetches of the user
    task files: line number i of the "tasks" input (counted from 0, lines
    as [splitlines] gives them) is fetched to action/user_tasks/task<i>.yml
    in the context of the user directory, one fetch per line, and no two
    lines are fetched to the same file. *)
Theorem user_task_files_are_numbered
    (E : Env) (args : Dict.t string) (ud repo ref : string) (s s' : State)
    (r : string * string * Dict.t (Dict.t string)) :
  stage E args ud repo ref s = (s', Ok r) →
  let lines := PyStr.splitlines (Dict.get_default "tasks" "" args) in
  ∃ before fetches,
    trace s' = before ++ fetches
    ∧ length fetches = length lines
    ∧ (∀ i line,
         lines !! i = Some line →
         fetches !! i
         = Some (GetFile line
                   ("action/user_tasks/task" +:+ PyStr.of_nat i +:+ ".yml") ud))
    ∧ NoDup ((fun e => match e with GetFile _ dest _ => dest | _ => "" end)
               <$> fetches).
Proof.
  intros H lines.
  destruct (stage_ends_with_task_fetches E _ _ _ _ _ _ _ H) as [before Ht].
  exists before, (task_fetches ud (Dict.get_default "tasks" "" args)).
  fold lines in Ht |- *. unfold task_fetches. fold lines.
  split; [done |]. split; [| split].
  - rewrite length_fmap. unfold enumerate.
    rewrite length_zip_with, length_seq. lia.
  - intros i line Hl. rewrite list_lookup_fmap.
    by rewrite (enumerate_lookup _ _ _ Hl).
  - rewrite <- list_fmap_compose.
    assert ((fun e => match e with GetFile _ dest _ => dest | _ => "" end)
              ∘ task_fetch ud
            = (fun i => "action/user_tasks/task" +:+ PyStr.of_nat i +:+ ".yml")
              ∘ fst) as -> by done.
    rewrite list_fmap_compose, enumerate_fst.
    apply NoDup_fmap_2; [| apply NoDup_seq].
    intros i j. apply task_destination_inj.
Qed.

Lemma user_task_files_are_numbered_witness :
  let args := [("tasks", "a.yml" +:+ String "010" "b.yml"); ("image", "none")] in
  ∃ before fetches,
    trace (stage (Sample.env args) args "/w" "org/repo" "v1" initial_state).1
    = before ++ fetches
    ∧ length fetches = 2
    ∧ (∀ i line,
         ["a.yml"; "b.yml"] !! i = Some line →
         fetches !! i
         = Some (GetFile line
                   ("action/user_tasks/task" +:+ PyStr.of_nat i +:+ ".yml")
                   "/w"))
    ∧ NoDup ((fun e => match e with GetFile _ dest _ => dest | _ => "" end)
               <$> fetches).
Proof.
  intros args.
  apply (user_task_files_are_numbered (Sample.env args) args "/w" "org/repo"
           "v1" initial_state _ ("riscv64", "hifive_unleashed", [])).
  vm_compute. reflexivity.
Defined.

(** ** The time stamp *)



(** Before year 1000 the time stamp is shorter than nineteen characters. *)
Example strftime_year_999 :
  strftime {| year := 999; month := 1; day := 2;
              hour := 3; minute := 4; second := 5 |}
  = "999-01-02 03:04:05".
Proof. reflexivity. Qed.

(** ** A run and the run in which nothing raises *)

Section CutShort.

Context (E : Env).

Lemma cut_short_same {A} (m : M A) :
  (∀ s, trace s `prefix_of` trace (m s).1) → cut_short m m.
Proof. intros H s. split; [done |]. by destruct ((m s).2). Qed.

Lemma cut_short_ret {A} (a : A) : cut_short (ret a) (ret a).
Proof. by apply cut_short_same. Qed.

Lemma cut_short_raise {A} x : cut_short (@raise A x) (raise x).
Proof. by apply cut_short_same. Qed.

Lemma cut_short_get_commands : cut_short get_commands get_commands.
Proof. by apply cut_short_same. Qed.

Lemma cut_short_get_trace : cut_short get_trace get_trace.
Proof. by apply cut_short_same. Qed.

Lemma cut_short_commands_append c :
  cut_short (commands_append c) (commands_append c).
Proof. by apply cut_short_same. Qed.

Lemma cut_short_emits {A} (m : M A) P : emits P m → cut_short m m.
Proof.
  intros H. apply cut_short_same. intros s.
  destruct (H s) as (evs & -> & _). by exists evs.
Qed.

Lemma cut_short_call e : cut_short (call E e) (call (silence E) e).
Proof.
  intros s. rewrite !call_run. simpl. split; [by exists [e] |].
  by destruct (raises E (trace s) e).
Qed.

Lemma cut_short_bind {A B} (m m' : M A) (k k' : A → M B) :
  cut_short m m' → (∀ a, cut_short (k a) (k' a)) →
  cut_short (bind m k) (bind m' k').
Proof.
  intros Hm Hk s. destruct (Hm s) as [Hp Hr]. rewrite !bind_run.
  destruct (m s) as [s1 [a|x]] eqn:Hms; simpl in *.
  - rewrite Hr. destruct (Hk a s1) as [Hp1 Hr1].
    split; [by etrans |]. done.
  - split; [done |].
    destruct (m' s) as [s2 [a|y]] eqn:Hms'; simpl in *; [| done].
    destruct (Hk a s2) as [Hp2 Hr2]. etrans; [exact Hr |].
    destruct ((k a s2).2).
    + by rewrite Hr2.
    + by etrans.
Qed.

Lemma cut_short_when c m m' :
  cut_short m m' → cut_short (when c m) (when c m').
Proof. destruct c; [done | intros _; apply cut_short_ret]. Qed.

Lemma cut_short_for_each {A} (l : list A) body body' :
  (∀ x, cut_short (body x) (body' x)) →
  cut_short (for_each l body) (for_each l body').
Proof.
  intros H. induction l as [|x l IH]; simpl.
  - apply cut_short_ret.
  - apply cut_short_bind; [apply H | intros _; apply IH].
Qed.

Lemma cut_short_error msg : cut_short (error msg) (error msg).
Proof. apply (cut_short_emits _ (fun _ => True)). by apply emits_error. Qed.

Lemma cut_short_archs_getitem arch :
  cut_short (archs_getitem E arch) (archs_getitem (silence E) arch).
Proof.
  apply (cut_short_emits _ (fun _ => True)), emits_archs_getitem.
Qed.

Lemma cut_short_argv_getitem argv i :
  cut_short (argv_getitem argv i) (argv_getitem argv i).
Proof.
  apply (cut_short_emits _ (fun _ => True)), emits_argv_getitem.
Qed.

Lemma cut_short_test_task text :
  cut_short (test_task E text) (test_task (silence E) text).
Proof.
  apply (cut_short_emits _ (fun _ => True)).
  unfold test_task. emits_auto.
Qed.

End CutShort.

Ltac cut_step :=
  match goal with
  | |- cut_short (bind _ _) (bind _ _) => apply cut_short_bind; [| intros ?]
  | |- cut_short (ret _) _ => apply cut_short_ret
  | |- cut_short (raise _) _ => apply cut_short_raise
  | |- cut_short get_commands _ => apply cut_short_get_commands
  | |- cut_short get_trace _ => apply cut_short_get_trace
  | |- cut_short (commands_append _) _ => apply cut_short_commands_append
  | |- cut_short (call _ _) _ => apply cut_short_call
  | |- cut_short (error _) _ => apply cut_short_error
  | |- cut_short (archs_getitem _ _) _ => apply cut_short_archs_getitem
  | |- cut_short (argv_getitem _ _) _ => apply cut_short_argv_getitem
  | |- cut_short (test_task _ _) _ => apply cut_short_test_task
  | |- cut_short (when _ _) _ => apply cut_short_when
  | |- cut_short (for_each _ _) _ => apply cut_short_for_each; intros ?
  | |- cut_short (if ?c then _ else _) _ => destruct c
  | |- cut_short (match ?x with _ => _ end) _ => destruct x
  | |- cut_short (let '(_, _) := ?x in _) _ => destruct x
  end.

Ltac cut_auto := repeat cut_step.

Section CutShortScript.

Context (E : Env).

Lemma cut_short_main argv : cut_short (main E argv) (main (silence E) argv).
Proof.
  unfold main, parse_arguments, stage, configure_board, prepare_image,
    dispatch, disable_network, collect.
  cbn [silence with_raises archs json_loads add_devices add_packages
       datetime_now shared_directories_actions path_exists].
  cut_auto.
Qed.

End CutShortScript.

(** X19: a call that raises only cuts the run short.  Whatever the
    collaborators do, the calls a run makes are an initial part of the calls
    of the run in which no call raises, in the same order; and a run that
    completes is that run, with the same trace and the same [commands]. *)
Theorem failures_only_cut_the_run_short (E : Env) (argv : list string) :
  trace (run_main E argv).1 `prefix_of` trace (run_main (silence E) argv).1
  ∧ (∀ u, (run_main E argv).2 = Ok u →
          run_main (silence E) argv = run_main E argv).
Proof.
  unfold run_main. destruct (cut_short_main E argv initial_state) as [_ H].
  destruct ((main E argv initial_state).2) as [u|x] eqn:Hr.
  - split; [by rewrite H | done].
  - split; [done | discriminate].
Qed.

Lemma failures_only_cut_the_run_short_witness :
  let E :=
    with_raises
      (fun _ e =>
         match e with
         | Evaluate => Some (OtherError "a task failed")
         | _ => None
         end)
      (Sample.env []) in
  (run_main E Sample.argv).2 = Raise (OtherError "a task failed")
  ∧ trace (run_main E Sample.argv).1
    `prefix_of` trace (run_main (silence E) Sample.argv).1.
Proof.
  intros E. split; [reflexivity |].
  apply (failures_only_cut_the_run_short E Sample.argv).
Defined.

(** ** The inputs with which a run completes *)

Section Completes.

Context (E : Env).

Lemma parse_arguments_ok_length argv s s' r :
  parse_arguments E argv s = (s', Ok r) → length argv = 5.
Proof.
  unfold parse_arguments. intros H. bind_inv H as s1 u1 H1.
  apply when_error_ok_inv in H1 as [Hlen _].
  apply bool_decide_eq_false in Hlen.
  destruct (decide (length argv = 5)); [done | by destruct Hlen].
Qed.

Lemma configure_board_none_ok_inv ud arch board resc repl s s' a b :
  configure_board E ud "none" arch board resc repl s = (s', Ok (a, b)) →
  ∃ ar,
    archs E !! arch = Some ar ∧ a = arch ∧ b = resolved_board ar board
    ∧ ¬ (b = "custom" ∧ (resc = "default" ∨ repl = "default")).
Proof.
  intros H. destruct (archs E !! arch) as [ar|] eqn:Har.
  2: { by rewrite configure_board_unsupported in H. }
  exists ar. split; [done |].
  rewrite (configure_board_supported E ud arch board resc repl ar s Har) in H.
  set (bb := resolved_board ar board) in *.
  bind_inv H as s1 u1 H1. apply when_error_ok_inv in H1 as [Hchk ->].
  bind_inv H as s2 u2 H2. bind_inv H as s3 u3 H3.
  injection H as <- <- <-.
  split; [done |]. split; [done |].
  intros [Hb Hd]. rewrite (bool_decide_eq_true_2 _ Hb) in Hchk.
  destruct Hd as [Hd | Hd]; rewrite (bool_decide_eq_true_2 _ Hd) in Hchk;
    [done | by rewrite orb_true_r in Hchk].
Qed.

Lemma stage_ok_board args ud repo ref s s' arch board opt :
  stage E args ud repo ref s = (s', Ok (arch, board, opt)) →
  board_ok E args ∧ arch = Dict.get_default "arch" "riscv64" args.
Proof.
  unfold stage. intros H. bind_inv H as s1 ab H1. destruct ab as [a b].
  simpl in H. bind_inv H as s2 k2 H2.
  apply kernel_choice_ok_inv in H2 as (Hk & _ & _).
  assert (a = arch) as ->.
  { bind_inv H as s3 u3 H3. bind_inv H as s4 u4 H4. bind_inv H as s5 u5 H5.
    bind_inv H as s6 u6 H6. bind_inv H as s7 u7 H7. bind_inv H as s8 u8 H8.
    bind_inv H as s9 u9 H9. by injection H as <- <- <- <-. }
  unfold board_ok.
  destruct (decide (Dict.get_default "custom-config" "none" args ≠ "none"))
    as [Hcc | Hcc].
  - apply configure_board_ok_inv in H1 as (-> & Hb & _).
    split; [| done]. specialize (Hb Hcc) as ->.
    destruct (PyStr.strip_is_empty (Dict.get_default "kernel" "" args));
      [by destruct Hk | done].
  - assert (Dict.get_default "custom-config" "none" args = "none") as Hnone.
    { destruct (decide (Dict.get_default "custom-config" "none" args = "none"));
        [done | by destruct Hcc]. }
    rewrite Hnone in H1.
    apply configure_board_none_ok_inv in H1 as (ar & Har & -> & -> & Hchk).
    split; [| done]. by exists ar.
Qed.

Lemma disable_network_ok_inv args arch s s' u :
  disable_network E args arch s = (s', Ok u) →
  Dict.get_default "network" "true" args ≠ "true"
  ∨ is_Some (archs E !! arch).
Proof.
  unfold disable_network.
  destruct (decide (Dict.get_default "network" "true" args ≠ "true"));
    [by left |].
  unfold archs_getitem. destruct (archs E !! arch); [by right |].
  intros H. bind_inv H as s1 b1 H1. bind_inv H1 as s2 a2 H2. discriminate.
Qed.

Lemma dispatch_ok_inv args arch board opt s s' u :
  dispatch E args arch board opt s = (s', Ok u) →
  (Dict.get_default "network" "true" args ≠ "true"
   ∨ is_Some (archs E !! arch))
  ∧ ∃ t, test_task_outcome E (Dict.get_default "renode-run" "" args) = Ok t.
Proof.
  unfold dispatch. intros H. bind_inv H as s1 m1 H1. bind_inv H as s2 u2 H2.
  bind_inv H as s3 u3 H3. bind_inv H as s4 u4 H4. bind_inv H as s5 t H5.
  split; [by apply disable_network_ok_inv in H4 |].
  exists t. destruct (test_task_run E (Dict.get_default "renode-run" "" args) s4)
    as (_ & Hout & _).
  unfold outcome_of in Hout. by rewrite H5 in Hout.
Qed.

Lemma main_ok_conditions argv u :
  (run_main E argv).2 = Ok u → ∃ args, run_conditions E argv args.
Proof.
  unfold run_main. intros Hok.
  destruct (main E argv initial_state) as [sf r] eqn:Hm. simpl in Hok.
  subst r. unfold main in Hm. bind_inv Hm as s0 p Hp.
  destruct p as [[[args ud] repo] ref]. simpl in Hm.
  bind_inv Hm as s1 q Hs. destruct q as [[arch board] opt]. simpl in Hm.
  bind_inv Hm as s2 u2 Hd.
  exists args. pose proof (parse_arguments_ok_length _ _ _ _ Hp) as Hlen.
  apply parse_arguments_ok_inv in Hp as (Hdec & _ & _).
  apply stage_ok_board in Hs as [Hb ->].
  apply dispatch_ok_inv in Hd as [Hn Ht].
  by repeat split.
Qed.

End Completes.

Section CompletesQuiet.

Context (E : Env) (quiet_env : never_raises E).

Lemma returns_true {A} (m : M A) Q : returns m Q → returns m (fun _ => True).
Proof. intros H. eapply returns_weaken; [exact H | done]. Qed.

Lemma returns_when_call c e : returns (when c (call E e)) (fun _ => True).
Proof.
  destruct c; simpl; [by apply (returns_call E quiet_env) |].
  eapply returns_true, returns_ret.
Qed.

Lemma returns_get_trace : returns get_trace (fun _ => True).
Proof. intros s. by exists s, (trace s). Qed.

Lemma returns_configure_board_none ud arch board resc repl ar :
  archs E !! arch = Some ar →
  ¬ (resolved_board ar board = "custom"
     ∧ (resc = "default" ∨ repl = "default")) →
  returns (configure_board E ud "none" arch board resc repl)
    (fun r => r = (arch, resolved_board ar board)).
Proof.
  intros Har Hchk s.
  rewrite (configure_board_supported E ud arch board resc repl ar s Har).
  cbv zeta. revert s.
  assert (bool_decide (resolved_board ar board = "custom")
          && (bool_decide (resc = "default") || bool_decide (repl = "default"))
          = false) as ->.
  { apply not_true_is_false. intros H.
    apply andb_true_iff in H as [Hb Hd]. apply Hchk.
    split; [by apply bool_decide_eq_true in Hb |].
    apply orb_true_iff in Hd as [Hd | Hd]; apply bool_decide_eq_true in Hd;
      auto. }
  eapply returns_bind; [apply returns_ret | intros _ _].
  do 2 (eapply returns_bind; [apply returns_when_call | intros _ _]).
  apply returns_ret.
Qed.

Lemma returns_stage args ud repo ref :
  board_ok E args →
  returns (stage E args ud repo ref)
    (fun r => r.1.1 = Dict.get_default "arch" "riscv64" args).
Proof.
  intros Hb. unfold board_ok in Hb. unfold stage.
  assert (returns
            (configure_board E ud
               (Dict.get_default "custom-config" "none" args)
               (Dict.get_default "arch" "riscv64" args)
               (Dict.get_default "board" "default" args)
               (Dict.get_default "resc" "default" args)
               (Dict.get_default "repl" "default" args))
            (fun r => r.1 = Dict.get_default "arch" "riscv64" args
                      ∧ ¬ (PyStr.strip_is_empty
                             (Dict.get_default "kernel" "" args) = true
                           ∧ r.2 = "custom"))) as Hcb.
  { destruct (decide (Dict.get_default "custom-config" "none" args ≠ "none"))
      as [Hcc | Hcc].
    - eapply returns_weaken; [by apply (returns_configure_board_custom E quiet_env) |].
      intros ? ->. split; [done |]. intros [Hk _]. by rewrite Hb in Hk.
    - assert (Dict.get_default "custom-config" "none" args = "none") as ->.
      { destruct (decide (Dict.get_default "custom-config" "none" args
                          = "none")); [done | by destruct Hcc]. }
      destruct Hb as (ar & Har & Hchk & Hk).
      eapply returns_weaken;
        [by apply (returns_configure_board_none _ _ _ _ _ ar) |].
      by intros ? ->. }
  eapply returns_bind; [exact Hcb |].
  intros [a b] [Ha Hk]. simpl in Ha, Hk. subst a.
  eapply returns_bind.
  { instantiate (1 := fun _ => True).
    destruct (PyStr.strip_is_empty (Dict.get_default "kernel" "" args))
      eqn:Hblank; simpl.
    - rewrite bool_decide_eq_false_2 by (intros ?; by apply Hk).
      eapply returns_true, returns_ret.
    - eapply returns_true, returns_ret. }
  intros kernel _.
  do 5 (eapply returns_bind; [apply (returns_call E quiet_env) | intros _ _]).
  eapply returns_bind; [apply (returns_prepare_image E quiet_env) | intros _ _].
  eapply returns_bind.
  { apply returns_for_each. intros [it task]. by apply (returns_call E quiet_env). }
  intros _ _. eapply returns_weaken; [apply returns_ret |].
  by intros ? ->.
Qed.

Lemma returns_disable_network args arch :
  Dict.get_default "network" "true" args ≠ "true"
  ∨ is_Some (archs E !! arch) →
  returns (disable_network E args arch) (fun _ => True).
Proof.
  intros Hn. unfold disable_network.
  assert (∀ off, returns
            (when off
               (for_each ["host"; "renode"; "target"]
                  (fun i => call E (EnableTask (i +:+ "_network") false))))
            (fun _ => True)) as Hwhen.
  { intros [|]; simpl.
    - do 3 (eapply returns_bind; [by apply (returns_call E quiet_env) | intros _ _]).
      eapply returns_true, returns_ret.
    - eapply returns_true, returns_ret. }
  destruct (decide (Dict.get_default "network" "true" args ≠ "true"))
    as [Hoff | Hon].
  - eapply returns_bind; [apply returns_ret | intros ? _; apply Hwhen].
  - destruct Hn as [Hn | [ar Har]]; [done |].
    unfold archs_getitem. rewrite Har.
    eapply returns_bind; [| intros ? _; apply Hwhen].
    eapply returns_bind; [apply returns_ret | intros ? _].
    eapply returns_true, returns_ret.
Qed.

Lemma returns_test_task text t :
  test_task_outcome E text = Ok t →
  returns (test_task E text) (fun _ => True).
Proof.
  intros Ht s. destruct (test_task_run E text s) as (_ & Hout & _).
  unfold outcome_of in Hout. rewrite Ht in Hout.
  destruct (test_task E text s) as [s' r]. simpl in Hout. subst r.
  by exists s', t.
Qed.

Lemma returns_dispatch args arch board opt t :
  Dict.get_default "network" "true" args ≠ "true"
  ∨ is_Some (archs E !! arch) →
  test_task_outcome E (Dict.get_default "renode-run" "" args) = Ok t →
  returns (dispatch E args arch board opt) (fun _ => True).
Proof.
  intros Hn Ht. unfold dispatch.
  eapply returns_bind; [apply returns_get_trace | intros made _].
  eapply returns_bind; [by apply (returns_call E quiet_env) | intros _ _].
  eapply returns_bind.
  { apply returns_for_each. intros task. by apply (returns_call E quiet_env). }
  intros _ _.
  eapply returns_bind; [by apply returns_disable_network | intros _ _].
  eapply returns_bind; [by eapply returns_test_task | intros task _].
  eapply returns_bind;
    [apply (returns_call E quiet_env)
    | intros _ _; apply (returns_call E quiet_env)].
Qed.

Lemma returns_collect ud : returns (collect E ud) (fun _ => True).
Proof.
  unfold collect.
  eapply returns_bind.
  { instantiate (1 := fun _ => True). intros s. by exists s, (commands s). }
  intros cmds _.
  eapply returns_bind.
  { apply returns_for_each. intros c. by apply (returns_call E quiet_env). }
  intros _ _.
  eapply returns_bind; [apply returns_get_trace | intros tr _].
  apply returns_for_each. intros dir.
  eapply returns_bind; [apply returns_get_trace | intros now _].
  apply returns_when_call.
Qed.

Lemma conditions_main_ok argv args :
  run_conditions E argv args → (run_main E argv).2 = Ok tt.
Proof.
  intros (Hlen & Hdec & Hb & Hn & t & Ht).
  assert (returns (main E argv) (fun _ => True)) as Hret.
  { unfold main.
    eapply returns_bind; [by apply (returns_parse_arguments E argv args) |].
    intros ? (ud & repo & ref & ->). simpl.
    eapply returns_bind; [by apply returns_stage |].
    intros [[arch board] opt] Harch. simpl in Harch. subst arch. simpl.
    eapply returns_bind; [by eapply returns_dispatch | intros _ _].
    apply returns_collect. }
  unfold run_main. destruct (Hret initial_state) as (s' & [] & -> & _). done.
Qed.

End CompletesQuiet.

(** X20: a run of the script ends without an exception only if the command
    line has five entries and its second entry decodes to a mapping [args]
    such that the board passes the checks of [configure_board] and of lines
    153-155 (with a custom config a kernel is named; without one the
    architecture is in the table, a custom board comes with resc, repl and
    a kernel), the network rule of line 187 finds its architecture or is
    cut short by "network" being other than "true", and the test task can
    be built.  When no collaborator raises, these conditions are also
    enough: the run then ends normally. *)
Theorem run_completes_when_inputs_allow (E : Env) (argv : list string) :
  (∀ u, (run_main E argv).2 = Ok u → ∃ args, run_conditions E argv args)
  ∧ (never_raises E →
     ∀ args, run_conditions E argv args → (run_main E argv).2 = Ok tt).
Proof.
  split.
  - intros u. apply main_ok_conditions.
  - intros Hq args. by apply conditions_main_ok.
Qed.

Lemma run_completes_when_inputs_allow_witness :
  let args := [("renode-run", "sh test.sh"); ("network", "false")] in
  let E := Sample.env args in
  never_raises E
  ∧ run_conditions E Sample.argv args
  ∧ (run_main E Sample.argv).2 = Ok tt.
Proof.
  intros args E.
  assert (never_raises E) as Hq by (intros tr e; reflexivity).
  assert (run_conditions E Sample.argv args) as Hc.
  { split; [reflexivity |]. split; [by exists "{...}" |].
    split; [| split].
    - unfold board_ok. rewrite decide_False by (intros H; by apply H).
      eexists. split; [vm_compute; reflexivity |].
      split; [intros [H _] | intros [_ H]]; vm_compute in H; discriminate H.
    - left. intros H. vm_compute in H. discriminate H.
    - eexists. vm_compute. reflexivity. }
  split; [exact Hq |]. split; [exact Hc |].
  exact (proj2 (run_completes_when_inputs_allow E Sample.argv) Hq args Hc).
Defined.
